(** * ircrobots: the connection core of [ircrobots/server.py]

    A shallow embedding of [Server]: the wait registry ([wait_for],
    [_on_read_line]), the priority write queue ([send], [_write_lines]),
    capability negotiation ([_cap_ls_done], [_cap_ack]) and SASL
    ([sasl_external], [sasl_userpass]).

    Conventions.
    - A Python [str] is represented by a Rocq [string] holding its UTF-8
      bytes.  Concatenation, equality, list membership and splitting on
      an ASCII separator commute with UTF-8 encoding, so
      [str.encode("utf8")] is the conversion to the byte list.
    - A coroutine is a function from the server object to a [Step]: it
      returns, raises, or suspends on a future with a continuation that
      is resumed with the future's line and the server as it is then.
    - The modules that [server.py] imports but that are not part of it
      ([ircv3], [matching], [interface]) are interfaces, as type classes. *)

From Stdlib.Strings Require Import Ascii String Byte.
From stdpp Require Import base numbers option list sorting strings gmap.


(** ** Python string and bytes primitives *)

Module Py.

(** [s.split(sep)] for a one-character separator: never empty, and an
    empty field for every separator at either end or doubled. *)
Fixpoint split (sep : ascii) (s : string) : list string :=
  match s with
  | EmptyString => [EmptyString]
  | String c rest =>
      if Ascii.eqb c sep then EmptyString :: split sep rest
      else match split sep rest with
           | [] => [String c EmptyString]
           | w :: ws => String c w :: ws
           end
  end.

(** [sep.join(l)] *)
Fixpoint join (sep : string) (l : list string) : string :=
  match l with
  | [] => EmptyString
  | [x] => x
  | x :: rest => x +:+ sep +:+ join sep rest
  end.

(** [s.encode("utf8")] and [b.decode("ascii")], see the conventions. *)
Definition encode_utf8 (s : string) : list byte := list_byte_of_string s.
Definition decode_ascii (b : list byte) : string := string_of_list_byte b.

Definition b64_alphabet : list byte :=
  list_byte_of_string
    "ABCDEFGHIJKLMNOPQRSTUVWXYZabcdefghijklmnopqrstuvwxyz0123456789+/".

Definition b64_digit (n : N) : byte :=
  nth (N.to_nat (N.land n 63)) b64_alphabet "="%byte.

(** [base64.b64encode]: three bytes give four digits; a tail of one or
    two bytes is padded with [=]. *)
Fixpoint b64encode (bs : list byte) : list byte :=
  match bs with
  | [] => []
  | [a] =>
      let n := N.shiftl (Byte.to_N a) 16 in
      [b64_digit (N.shiftr n 18); b64_digit (N.shiftr n 12);
       "="%byte; "="%byte]
  | [a; b] =>
      let n := N.lor (N.shiftl (Byte.to_N a) 16) (N.shiftl (Byte.to_N b) 8) in
      [b64_digit (N.shiftr n 18); b64_digit (N.shiftr n 12);
       b64_digit (N.shiftr n 6); "="%byte]
  | a :: b :: c :: rest =>
      let n := N.lor (N.lor (N.shiftl (Byte.to_N a) 16)
                            (N.shiftl (Byte.to_N b) 8)) (Byte.to_N c) in
      b64_digit (N.shiftr n 18) :: b64_digit (N.shiftr n 12)
        :: b64_digit (N.shiftr n 6) :: b64_digit n :: b64encode rest
  end.

(** [bool(x)] for [x : Optional[str]]: [None] and [""] are false. *)
Definition truthy (o : option string) : bool :=
  match o with
  | Some s => negb (String.eqb s "")
  | None => false
  end.

(** [l.remove(x)] for an [x] that is in [l]: the first occurrence goes. *)
Fixpoint remove (x : string) (l : list string) : list string :=
  match l with
  | [] => []
  | y :: l => if decide (x = y) then l else y :: remove x l
  end.

(** [list(filter(bool, xs))] *)
Definition filter_bool (xs : list (option string)) : list string :=
  omap (λ o, if truthy o then o else None) xs.

(** [x or ""] *)
Definition or_empty (o : option string) : string := default "" o.

(** [x or y] for [x : Optional[str]]: [y] when [x] is [None] or [""]. *)
Definition or_ (o : option string) (y : string) : string :=
  if truthy o then default y o else y.

(** The one-character string [\0]. *)
Definition NUL : string := String Ascii.zero EmptyString.

End Py.

(** ** [heapq]: the binary heap behind [asyncio.PriorityQueue]

    [PriorityQueue._put] is [heapq.heappush] and [PriorityQueue._get] is
    [heapq.heappop] on a Python list.  The loops of [_siftdown] and
    [_siftup] run on fuel: [pos] moves strictly towards the root, or
    strictly towards the leaves, so [pos] and [len(heap)] are enough.
    The positions read are in range; the [None] branches of the lookups
    stand for the [IndexError] that does not occur. *)

Module heapq.
Section heapq.
Context {A : Type} (lt : A → A → bool).

(** The [while pos > startpos] loop of [_siftdown], then
    [heap[pos] = newitem]. *)
Fixpoint _siftdown_loop (fuel : nat) (heap : list A)
    (startpos pos : nat) (newitem : A) : list A :=
  match fuel with
  | 0 => <[pos := newitem]> heap
  | S fuel =>
      if decide (startpos < pos) then
        let parentpos := (pos - 1) / 2 in
        match heap !! parentpos with
        | Some parent =>
            if lt newitem parent
            then _siftdown_loop fuel (<[pos := parent]> heap)
                   startpos parentpos newitem
            else <[pos := newitem]> heap
        | None => heap
        end
      else <[pos := newitem]> heap
  end.

Definition _siftdown (heap : list A) (startpos pos : nat) : list A :=
  match heap !! pos with
  | Some newitem => _siftdown_loop pos heap startpos pos newitem
  | None => heap
  end.

(** The [while childpos < endpos] loop of [_siftup]: the smaller child
    moves up until [pos] is a leaf.  [heap !! rightpos] is [Some]
    exactly when [rightpos < endpos]. *)
Fixpoint _siftup_loop (fuel : nat) (heap : list A) (pos : nat)
    : list A * nat :=
  match fuel with
  | 0 => (heap, pos)
  | S fuel =>
      let childpos := 2 * pos + 1 in
      if decide (childpos < length heap) then
        let rightpos := childpos + 1 in
        let childpos :=
          match heap !! childpos, heap !! rightpos with
          | Some l, Some r => if lt l r then childpos else rightpos
          | _, _ => childpos
          end in
        match heap !! childpos with
        | Some c => _siftup_loop fuel (<[pos := c]> heap) childpos
        | None => (heap, pos)
        end
      else (heap, pos)
  end.

Definition _siftup (heap : list A) (pos : nat) : list A :=
  match heap !! pos with
  | Some newitem =>
      let '(heap, leaf) := _siftup_loop (length heap) heap pos in
      _siftdown (<[leaf := newitem]> heap) pos leaf
  | None => heap
  end.

Definition heappush (heap : list A) (item : A) : list A :=
  _siftdown (heap ++ [item]) 0 (length heap).

(** [None] is the [IndexError] of [heap.pop()] on an empty list. *)
Definition heappop (heap : list A) : option (A * list A) :=
  match last heap with
  | None => None
  | Some lastelt =>
      let heap := take (length heap - 1) heap in
      match heap with
      | [] => Some (lastelt, [])
      | returnitem :: _ => Some (returnitem, _siftup (<[0 := lastelt]> heap) 0)
      end
  end.

(** Popping until the heap is empty. *)
Fixpoint popall (fuel : nat) (heap : list A) : list A :=
  match fuel with
  | 0 => []
  | S fuel =>
      match heappop heap with
      | Some (x, heap) => x :: popall fuel heap
      | None => []
      end
  end.
End heapq.
End heapq.

(** ** [irctokens]: structured lines *)

Module irctokens.
Record Line := mkLine {
  source : option string;
  command : string;
  params : list string;
}.

(** [irctokens.build(command, params)] *)
Definition build (command : string) (params : list string) : Line :=
  mkLine None command params.
End irctokens.

Abbreviation Line := irctokens.Line.
Abbreviation build := irctokens.build.

Global Instance Line_eq_dec : EqDecision Line.
Proof. solve_decision. Defined.

(** ** [ircstates]: the events of the state-tracking library *)

Module ircstates.
Record Emit := mkEmit {
  command : option string;
  subcommand : option string;
  finished : bool;
  tokens : option (list string);
}.
End ircstates.

Abbreviation Emit := ircstates.Emit.

(** ** [interface]: priorities and connection parameters *)

(** Modelled from the spec: [interface.py] is not part of the source.
    A [PriorityLine] is a (priority, Line) pair whose ordering key is the
    priority only. *)
Record PriorityLine := mkPriorityLine {
  priority : Z;
  line : Line;
}.

Definition PriorityLine_lt (a b : PriorityLine) : bool :=
  (priority a <? priority b)%Z.

(** [SendPriority.DEFAULT], whatever integer it is. *)
Class Interface := SendPriority_DEFAULT : Z.

Module SASLParams.
Record t := mk {
  mechanism : string;
  username : option string;
  password : option string;
}.
End SASLParams.

Module ConnectionParams.
Record t := mk {
  nickname : string;
  username : option string;
  realname : option string;
  sasl : option SASLParams.t;
}.
End ConnectionParams.

(** ** [matching]: descriptions of an awaited line *)

Inductive Param :=
| ParamAny
| Literal (value : string).

Inductive BaseResponse :=
| Response (command : string) (params : list Param) (errors : list string)
| Numerics (numerics : list string).

(** [response.match(line)]; [matching.py] is not part of the source. *)
Class Matching := match_ : BaseResponse → Line → bool.

(** ** [ircv3]: the capability catalogue *)

(** [capability.available(caps)] is the name under which the server
    offers the capability, if it does. *)
Class Ircv3 := {
  Capability : Type;
  Capability_eq_dec :: EqDecision Capability;
  Capability_countable :: Countable Capability;
  available : Capability → list string → option string;
  CAPS : list Capability;
  CAP_SASL : Capability;
}.

(** ** Exceptions, results and futures *)

Inductive SASLResult := SUCCESS | FAILURE | ALREADY.

Inductive Exn :=
| SASLUnkownMechanismError (server_mechs : list string)
| KeyError (key : string)
| IndexError
| InvalidStateError
| ConnectionClosed.

(** An [asyncio.Future] of a line. *)
Inductive Future :=
| Pending
| Result (l : Line)
| Exception (e : Exn).

Definition SASL_USERPASS_MECHANISMS : list string :=
  ["SCRAM-SHA-512"; "SCRAM-SHA-256"; "SCRAM-SHA-1"; "PLAIN"].

(** ** The [Server] object

    [available_caps] and [agreed_caps] belong to the [ircstates] base
    class, which fills them from CAP LS and CAP ACK.  [futures] is the
    store of the futures made by [wait_for], a future being its index;
    [_writer] holds the lines written so far. *)

Record Server `{Ircv3} := mkServer {
  available_caps : gmap string (option string);
  agreed_caps : list string;
  params : ConnectionParams.t;
  _write_queue : list PriorityLine;
  _cap_queue : gset Capability;
  _requested_caps : list string;
  _wait_for : list (BaseResponse * nat);
  futures : list Future;
  _writer : list Line;
}.

Section setters.
Context `{Ircv3}.

Definition set_write_queue (q : list PriorityLine) (s : Server) : Server :=
  mkServer _ (available_caps s) (agreed_caps s) (params s) q (_cap_queue s)
    (_requested_caps s) (_wait_for s) (futures s) (_writer s).

Definition set_cap_queue (q : gset Capability) (s : Server) : Server :=
  mkServer _ (available_caps s) (agreed_caps s) (params s) (_write_queue s) q
    (_requested_caps s) (_wait_for s) (futures s) (_writer s).

Definition set_requested_caps (r : list string) (s : Server) : Server :=
  mkServer _ (available_caps s) (agreed_caps s) (params s) (_write_queue s)
    (_cap_queue s) r (_wait_for s) (futures s) (_writer s).

Definition set_wait_for (w : list (BaseResponse * nat)) (s : Server) : Server :=
  mkServer _ (available_caps s) (agreed_caps s) (params s) (_write_queue s)
    (_cap_queue s) (_requested_caps s) w (futures s) (_writer s).

Definition set_futures (f : list Future) (s : Server) : Server :=
  mkServer _ (available_caps s) (agreed_caps s) (params s) (_write_queue s)
    (_cap_queue s) (_requested_caps s) (_wait_for s) f (_writer s).

Definition set_writer (w : list Line) (s : Server) : Server :=
  mkServer _ (available_caps s) (agreed_caps s) (params s) (_write_queue s)
    (_cap_queue s) (_requested_caps s) (_wait_for s) (futures s) w.

Definition set_params (p : ConnectionParams.t) (s : Server) : Server :=
  mkServer _ (available_caps s) (agreed_caps s) p (_write_queue s)
    (_cap_queue s) (_requested_caps s) (_wait_for s) (futures s) (_writer s).

(** [Server.__init__]: everything empty. *)
Definition Server_init (p : ConnectionParams.t) : Server :=
  mkServer _ ∅ [] p [] ∅ [] [] [] [].
End setters.

(** ** Coroutines

    A running coroutine has returned, has raised, or is suspended in
    [await future]; it is resumed with the line the future was given
    and the server as the other coroutines left it. *)

Inductive Step `{Ircv3} (A : Type) : Type :=
| Return (a : A) (s : Server)
| Raise (e : Exn) (s : Server)
| Await (s : Server) (future : nat) (k : Line → Server → Step A).

Arguments Return {_ _} a s.
Arguments Raise {_ _} e s.
Arguments Await {_ _} s future k.

Definition Coro `{Ircv3} (A : Type) : Type := Server → Step A.

Section coroutines.
Context `{Ircv3}.

Fixpoint bind_step {A B} (t : Step A) (g : A → Coro B) : Step B :=
  match t with
  | Return a s => g a s
  | Raise e s => Raise e s
  | Await s f k => Await s f (λ l s', bind_step (k l s') g)
  end.

Definition ret {A} (a : A) : Coro A := λ s, Return a s.
Definition raise {A} (e : Exn) : Coro A := λ s, Raise e s.
Definition bind {A B} (c : Coro A) (g : A → Coro B) : Coro B :=
  λ s, bind_step (c s) g.

(** Reading and assigning attributes of [self]. *)
Definition get {A} (f : Server → A) : Coro A := λ s, Return (f s) s.
Definition modify (f : Server → Server) : Coro unit := λ s, Return tt (f s).

(** [await future]: a finished future gives its outcome at once. *)
Definition await (future : nat) : Coro Line := λ s,
  match futures s !! future with
  | Some (Result l) => Return l s
  | Some (Exception e) => Raise e s
  | _ => Await s future (λ l s', Return l s')
  end.

(** [for x in xs: body(x)] *)
Fixpoint for_each {X} (xs : list X) (body : X → Coro unit) : Coro unit :=
  match xs with
  | [] => ret tt
  | x :: xs => bind (body x) (λ _, for_each xs body)
  end.
End coroutines.

Declare Scope coro_scope.
Delimit Scope coro_scope with coro.
Notation "x <- c ;; k" := (bind c (λ x, k))
  (at level 100, c at next level, right associativity) : coro_scope.

(** ** The methods of [Server] *)

Section Server.
Context `{Interface, Matching, Ircv3}.
Open Scope coro_scope.

(** [xs[i]], raising [IndexError] out of range. *)
Definition index {X} (xs : list X) (i : nat) : Coro X :=
  match xs !! i with
  | Some x => ret x
  | None => raise IndexError
  end.

(** [self._write_queue.put(PriorityLine(priority, line))]; the queue is
    unbounded, so [put] never waits. *)
Definition put (line : Line) (priority : Z) (s : Server) : Server :=
  set_write_queue
    (heapq.heappush PriorityLine_lt (_write_queue s)
       (mkPriorityLine priority line)) s.

Definition send (line : Line) (priority : Z) : Coro unit :=
  modify (put line priority).

(** [wait_for]: a new future, registered at the tail. *)
Definition register (response : BaseResponse) (s : Server) : Server :=
  set_wait_for (_wait_for s ++ [(response, length (futures s))])
    (set_futures (futures s ++ [Pending]) s).

Definition wait_for (response : BaseResponse) : Coro nat := λ s,
  Return (length (futures s)) (register response s).

(** [future.set_result(line)] raises on a future that is done. *)
Definition set_result (future : nat) (line : Line) : Coro unit := λ s,
  match futures s !! future with
  | Some Pending =>
      Return tt (set_futures (<[future := Result line]> (futures s)) s)
  | _ => Raise InvalidStateError s
  end.

(** The scan of [_on_read_line]: index and future of the first entry
    whose response matches. *)
Fixpoint first_match (line : Line) (i : nat)
    (entries : list (BaseResponse * nat)) : option (nat * nat) :=
  match entries with
  | [] => None
  | (response, future) :: entries =>
      if match_ response line then Some (i, future)
      else first_match line (S i) entries
  end.

Definition _on_read_line (line : Line) : Coro unit :=
  entries <- get _wait_for ;;
  _ <- match first_match line 0 entries with
       | Some (i, future) =>
           _ <- modify (λ s, set_wait_for (delete i (_wait_for s)) s) ;;
           set_result future line
       | None => ret tt
       end ;;
  if decide (irctokens.command line = "PING")
  then send (build "PONG" (irctokens.params line)) SendPriority_DEFAULT
  else ret tt.

(** The [while] loop of [_write_lines].  [get()] on an empty queue
    waits for a [put]: [None]. *)
Fixpoint _write_lines_loop (fuel : nat) (lines : list Line)
    (queue : list PriorityLine) : option (list Line * list PriorityLine) :=
  match fuel with
  | 0 => Some (lines, queue)
  | S fuel =>
      if bool_decide (lines = [])
         || (bool_decide (length lines < 5) && bool_decide (0 < length queue))
      then match heapq.heappop PriorityLine_lt queue with
           | Some (prio_line, queue) =>
               _write_lines_loop fuel (lines ++ [line prio_line]) queue
           | None => None
           end
      else Some (lines, queue)
  end.

(** One cycle of the write loop; the throttle only delays the writes. *)
Definition _write_lines (s : Server) : option (list Line * Server) :=
  '(lines, queue) ← _write_lines_loop 5 [] (_write_queue s);
  Some (lines, set_writer (_writer s ++ lines) (set_write_queue queue s)).

Definition queue_capability (cap : Capability) : Coro unit :=
  modify (λ s, set_cap_queue ({[cap]} ∪ _cap_queue s) s).

Definition cap_available (capability : Capability) (s : Server)
    : option string :=
  available capability (agreed_caps s).

Definition cap_agreed (capability : Capability) (s : Server) : bool :=
  Py.truthy (cap_available capability s).

Definition _cap_ls_done : Coro unit :=
  cap_queue <- get _cap_queue ;;
  let caps : list Capability := CAPS ++ elements cap_queue in
  _ <- modify (set_cap_queue ∅) ;;
  sasl <- get (λ s, ConnectionParams.sasl (params s)) ;;
  let caps : list Capability :=
    if sasl is Some _ then caps ++ [CAP_SASL] else caps in
  available_caps <- get available_caps ;;
  let matches := Py.filter_bool
    (fmap (M := list)
       (λ c, available c (map_to_list available_caps).*1) caps) in
  match matches with
  | [] => ret tt
  | _ =>
      _ <- modify (set_requested_caps matches) ;;
      send (build "CAP" ["REQ"; Py.join " " matches]) SendPriority_DEFAULT
  end.

Definition sasl_external : Coro SASLResult :=
  _ <- send (build "AUTHENTICATE" ["EXTERNAL"]) SendPriority_DEFAULT ;;
  future <- wait_for
    (Response "AUTHENTICATE" [ParamAny] ["904"; "907"; "908"]) ;;
  line <- await future ;;
  if decide (irctokens.command line = "907") then ret ALREADY
  else if decide (irctokens.command line = "908") then
    p1 <- index (irctokens.params line) 1 ;;
    raise (SASLUnkownMechanismError (Py.split "," p1))
  else
    plus <- (if decide (irctokens.command line = "AUTHENTICATE")
             then p0 <- index (irctokens.params line) 0 ;;
                  ret (bool_decide (p0 = "+"))
             else ret false) ;;
    if plus : bool then
      _ <- send (build "AUTHENTICATE" ["+"]) SendPriority_DEFAULT ;;
      future <- wait_for (Numerics ["903"; "904"]) ;;
      line <- await future ;;
      if decide (irctokens.command line = "903") then ret SUCCESS
      else ret FAILURE
    else ret FAILURE.

(** The [for ... else] of [_common]. *)
Fixpoint _common_for (ours server_mechs : list string) : option string :=
  match ours with
  | [] => None
  | our_mech :: ours =>
      if bool_decide (our_mech ∈ server_mechs) then Some our_mech
      else _common_for ours server_mechs
  end.

Definition _common (server_mechs : list string) : Coro string :=
  match _common_for SASL_USERPASS_MECHANISMS server_mechs with
  | Some our_mech => ret our_mech
  | None => raise (SASLUnkownMechanismError server_mechs)
  end.

Definition sasl_userpass (username password : string) : Coro SASLResult :=
  available_caps <- get available_caps ;;
  sasl <- (match available_caps !! "sasl" with
           | Some v => ret v
           | None => raise (KeyError "sasl")
           end) ;;
  match_ <- (match sasl with
             | Some v => _common (Py.split "," v)
             | None => index SASL_USERPASS_MECHANISMS 0
             end) ;;
  _ <- send (build "AUTHENTICATE" [match_]) SendPriority_DEFAULT ;;
  future <- wait_for
    (Response "AUTHENTICATE" [ParamAny] ["904"; "907"; "908"]) ;;
  line <- await future ;;
  if decide (irctokens.command line = "907") then ret ALREADY
  else
    r <- (if decide (irctokens.command line = "908") then
            p1 <- index (irctokens.params line) 1 ;;
            match_ <- _common (Py.split "," p1) ;;
            _ <- send (build "AUTHENTICATE" [match_]) SendPriority_DEFAULT ;;
            future <- wait_for (Response "AUTHENTICATE" [ParamAny] []) ;;
            line <- await future ;;
            ret (match_, line)
          else ret (match_, line)) ;;
    let '(match_, line) := r in
    plus <- (if decide (irctokens.command line = "AUTHENTICATE")
             then p0 <- index (irctokens.params line) 0 ;;
                  ret (bool_decide (p0 = "+"))
             else ret false) ;;
    if plus : bool then
      let auth_text :=
        if decide (match_ = "PLAIN")
        then Some (username +:+ Py.NUL +:+ username +:+ Py.NUL +:+ password)
        else None in
      match auth_text with
      | Some auth_text =>
          let auth_b64 :=
            Py.decode_ascii (Py.b64encode (Py.encode_utf8 auth_text)) in
          _ <- send (build "AUTHENTICATE" [auth_b64]) SendPriority_DEFAULT ;;
          future <- wait_for (Numerics ["903"; "904"]) ;;
          line <- await future ;;
          if decide (irctokens.command line = "903") then ret SUCCESS
          else ret FAILURE
      | None => ret FAILURE
      end
    else ret FAILURE.

(** The SASL hand-off at the head of [_cap_ack]. *)
Definition _cap_ack_sasl : Coro unit :=
  p <- get params ;;
  agreed <- get (cap_agreed CAP_SASL) ;;
  match ConnectionParams.sasl p with
  | Some sasl =>
      if agreed : bool then
        if decide (SASLParams.mechanism sasl = "USERPASS") then
          _ <- sasl_userpass (Py.or_empty (SASLParams.username sasl))
                 (Py.or_empty (SASLParams.password sasl)) ;;
          ret tt
        else if decide (SASLParams.mechanism sasl = "EXTERNAL") then
          _ <- sasl_external ;; ret tt
        else ret tt
      else ret tt
  | None => ret tt
  end.

(** The token loop and the [CAP END] at the tail of [_cap_ack]. *)
Definition _cap_ack_tokens (emit : Emit) : Coro unit :=
  _ <- for_each (default [] (ircstates.tokens emit)) (λ cap,
         requested <- get _requested_caps ;;
         if decide (cap ∈ requested)
         then modify (λ s, set_requested_caps
                             (Py.remove cap (_requested_caps s)) s)
         else ret tt) ;;
  requested <- get _requested_caps ;;
  match requested with
  | [] => send (build "CAP" ["END"]) SendPriority_DEFAULT
  | _ => ret tt
  end.

Definition _cap_ack (emit : Emit) : Coro unit :=
  _ <- _cap_ack_sasl ;;
  _cap_ack_tokens emit.

Definition _on_read_emit (line : Line) (emit : Emit) : Coro unit :=
  if decide (ircstates.command emit = Some "CAP") then
    if bool_decide (ircstates.subcommand emit = Some "LS")
       && ircstates.finished emit
    then _cap_ls_done
    else if bool_decide (ircstates.subcommand emit ∈ [Some "ACK"; Some "NAK"])
    then _cap_ack emit
    else ret tt
  else ret tt.

(** The sends of [connect], after the connection is open. *)
Definition connect (p : ConnectionParams.t) : Coro unit :=
  let nickname := ConnectionParams.nickname p in
  let username := Py.or_ (ConnectionParams.username p) nickname in
  let realname := Py.or_ (ConnectionParams.realname p) nickname in
  _ <- send (build "CAP" ["LS"]) SendPriority_DEFAULT ;;
  _ <- send (build "NICK" [nickname]) SendPriority_DEFAULT ;;
  _ <- send (build "USER" [username; "0"; "*"; realname]) SendPriority_DEFAULT ;;
  modify (set_params p).
End Server.

(** ** The loops around [Server] *)

Section loops.
Context `{Interface, Matching, Ircv3}.
Open Scope coro_scope.

(** Modelled from the spec: the read loop is not in [server.py].  It
    hands every inbound line to [_on_read_line]; a coroutine suspended
    on a future goes on once that future has its line. *)
Fixpoint read_loop {A} (inbound : list Line) (t : Step A) : Step A :=
  match t with
  | Await s future k =>
      match inbound with
      | [] => t
      | l :: inbound =>
          match _on_read_line l s with
          | Return _ s' =>
              match futures s' !! future with
              | Some (Result r) => read_loop inbound (k r s')
              | Some (Exception e) => Raise e s'
              | _ => read_loop inbound (Await s' future k)
              end
          | Raise e s' => Raise e s'
          | Await _ _ _ => t
          end
      end
  | _ => t
  end.

(** Modelled from the spec: the write loop is not in [server.py].  It
    repeats [_write_lines]; on an empty queue the cycle waits. *)
Fixpoint write_loop (cycles : nat) (s : Server) : list Line * Server :=
  match cycles with
  | 0 => ([], s)
  | S cycles =>
      match _write_lines s with
      | Some (lines, s) =>
          let '(rest, s) := write_loop cycles s in (lines ++ rest, s)
      | None => ([], s)
      end
  end.

(** [future.set_exception(e)] raises on a future that is done. *)
Definition set_exception (future : nat) (e : Exn) : Coro unit := λ s,
  match futures s !! future with
  | Some Pending =>
      Return tt (set_futures (<[future := Exception e]> (futures s)) s)
  | _ => Raise InvalidStateError s
  end.

(** Modelled from the spec: [server.py] has no teardown.  "Tearing down
    the connection must fail every outstanding WaitRegistry entry
    exactly once with a connection-closed error." *)
Definition teardown : Coro unit :=
  entries <- get _wait_for ;;
  _ <- modify (set_wait_for []) ;;
  for_each entries (λ entry, set_exception entry.2 ConnectionClosed).

(** What happens to the wait registry: a registration or a line. *)
Inductive RegistryOp :=
| OpWaitFor (response : BaseResponse)
| OpReadLine (line : Line).

Definition registry_op (op : RegistryOp) : Coro unit :=
  match op with
  | OpWaitFor response => _ <- wait_for response ;; ret tt
  | OpReadLine line => _on_read_line line
  end.

(** The enqueue calls of a list of (line, priority) pairs. *)
Definition enqueue_all (calls : list (Line * Z)) : Coro unit :=
  for_each calls (λ call, send call.1 call.2).

Definition returned {A} (t : Step A) : option (A * Server) :=
  match t with
  | Return a s => Some (a, s)
  | _ => None
  end.
End loops.

(** ** Sample collaborators, for the concrete cases *)

(** Modelled from the spec: [matching.py] is not part of the source.  A
    response matches a line on the expected command with the parameter
    patterns in order, or on a command among its error codes; a numerics
    response matches a line whose command is one of its codes. *)
Definition Param_match (p : Param) (value : string) : bool :=
  match p with
  | ParamAny => true
  | Literal v => bool_decide (v = value)
  end.

Fixpoint Params_match (ps : list Param) (values : list string) : bool :=
  match ps, values with
  | [], _ => true
  | p :: ps, v :: values => Param_match p v && Params_match ps values
  | _ :: _, [] => false
  end.

Definition spec_match : Matching := λ response l,
  match response with
  | Response command params errors =>
      (bool_decide (irctokens.command l = command)
         && Params_match params (irctokens.params l))
      || bool_decide (irctokens.command l ∈ errors)
  | Numerics numerics => bool_decide (irctokens.command l ∈ numerics)
  end.

(** Modelled from the spec: [ircv3.py] is not part of the source.  A
    capability is its name, available when the server lists that name;
    no capability is built in. *)
Definition spec_ircv3 : Ircv3 := {|
  Capability := string;
  available := λ c caps, if bool_decide (c ∈ caps) then Some c else None;
  CAPS := [];
  CAP_SASL := "sasl";
|}.

(** A value for [SendPriority.DEFAULT]. *)
Definition spec_interface : Interface := 10%Z.

(** ** Specification of the wait registry *)

Global Instance Exn_eq_dec : EqDecision Exn.
Proof. solve_decision. Defined.

Global Instance Future_eq_dec : EqDecision Future.
Proof. solve_decision. Defined.

Section registry_spec.
Context `{Matching, Ircv3}.

(** The futures of the registered waits are pairwise distinct and
    still pending. *)
Definition server_wf (s : Server) : Prop :=
  NoDup (_wait_for s).*2
  ∧ Forall (λ f, futures s !! f = Some Pending) (_wait_for s).*2.

Global Instance server_wf_dec s : Decision (server_wf s).
Proof. unfold server_wf. apply _. Defined.

(** Entry [i] is the first entry of [entries] that matches [line]. *)
Definition first_matching (line : Line) (entries : list (BaseResponse * nat))
    (i : nat) (m : BaseResponse) (f : nat) : Prop :=
  entries !! i = Some (m, f) ∧ match_ m line = true
  ∧ ∀ j m' f', j < i → entries !! j = Some (m', f') → match_ m' line = false.

(** What one inbound line does to the registry, from [s] to [s']:
    either the first matching entry is removed and its pending future
    gets the line, and nothing else changes; or no entry matches and
    nothing changes. *)
Definition resolves_first (line : Line) (s s' : Server) : Prop :=
  (∃ i m f, first_matching line (_wait_for s) i m f
     ∧ _wait_for s' = delete i (_wait_for s)
     ∧ futures s !! f = Some Pending
     ∧ futures s' = <[f := Result line]> (futures s)
     ∧ f ∉ (_wait_for s').*2)
  ∨ ((∀ m f, (m, f) ∈ _wait_for s → match_ m line = false)
     ∧ _wait_for s' = _wait_for s ∧ futures s' = futures s).

(** A wait behind an earlier wait that matches [line] stays registered
    and pending. *)
Definition later_waits_pending (line : Line) (s s' : Server) : Prop :=
  ∀ i1 m1 f1 i2 m2 f2, i1 < i2 →
    _wait_for s !! i1 = Some (m1, f1) → match_ m1 line = true →
    _wait_for s !! i2 = Some (m2, f2) →
    (m2, f2) ∈ _wait_for s' ∧ futures s' !! f2 = Some Pending.

(** A future that has its line keeps it. *)
Definition results_kept (s s' : Server) : Prop :=
  ∀ f r, futures s !! f = Some (Result r) → futures s' !! f = Some (Result r).
End registry_spec.

Section teardown_spec.
Context `{Interface, Matching, Ircv3}.

(** From [s] to [s'] every registered wait has failed with the
    connection-closed error, the registry is empty and no other future
    has changed. *)
Definition fails_pending (s s' : Server) : Prop :=
  _wait_for s' = []
  ∧ length (futures s') = length (futures s)
  ∧ (∀ m f, (m, f) ∈ _wait_for s →
       futures s !! f = Some Pending
       ∧ futures s' !! f = Some (Exception ConnectionClosed))
  ∧ (∀ f, f ∉ (_wait_for s).*2 → futures s' !! f = futures s !! f).

(** The wait [(m, f)] of [s] is still registered and pending after the
    lines [lines]. *)
Definition still_pending (m : BaseResponse) (f : nat) (lines : list Line)
    (s : Server) : Prop :=
  ∃ s', for_each lines _on_read_line s = Return tt s'
    ∧ (m, f) ∈ _wait_for s' ∧ futures s' !! f = Some Pending.
End teardown_spec.

(** ** Specification of the write queue *)

Section heapq_spec.
Context {A : Type} (key : A → Z).

(** The parent of position [j] in the array layout of the heap. *)
Definition parent (j : nat) : nat := (j - 1) / 2.

(** No element is below its parent. *)
Definition heap_ordered (h : list A) : Prop :=
  ∀ j x y, 0 < j → h !! parent j = Some x → h !! j = Some y →
    (key x ≤ key y)%Z.

(** [h] with a hole at [pos] that is about to receive [newitem], on the
    way up: every edge that does not touch the hole is in order, and
    both [newitem] and the parent of the hole are below its children. *)
Definition hole_down (h : list A) (pos : nat) (newitem : A) : Prop :=
  (∀ j x y, 0 < j → j ≠ pos → parent j ≠ pos →
     h !! parent j = Some x → h !! j = Some y → (key x ≤ key y)%Z) ∧
  (∀ j y, 0 < j → parent j = pos → h !! j = Some y →
     (key newitem ≤ key y)%Z) ∧
  (∀ j x y, 0 < j → 0 < pos → parent j = pos →
     h !! parent pos = Some x → h !! j = Some y → (key x ≤ key y)%Z).

(** [h] with a hole at [pos] on the way down: every edge whose parent
    is not the hole is in order, and the parent of the hole is below
    the children of the hole. *)
Definition hole_up (h : list A) (pos : nat) : Prop :=
  (∀ j x y, 0 < j → parent j ≠ pos →
     h !! parent j = Some x → h !! j = Some y → (key x ≤ key y)%Z) ∧
  (∀ j x y, 0 < j → 0 < pos → parent j = pos →
     h !! parent pos = Some x → h !! j = Some y → (key x ≤ key y)%Z).
End heapq_spec.

(** The [PriorityLine] of an enqueue call. *)
Definition call_line (call : Line * Z) : PriorityLine :=
  mkPriorityLine call.2 call.1.

(** [out] is the lines of [calls] in an order of non-decreasing priority. *)
Definition drained_by_priority (calls : list (Line * Z)) (out : list Line)
    : Prop :=
  ∃ order : list PriorityLine,
    order ≡ₚ call_line <$> calls
    ∧ Sorted Z.le (priority <$> order)
    ∧ out = line <$> order.

(** ** Specification of the SASL exchanges *)

(** The response awaited after an [AUTHENTICATE <mechanism>]. *)
Definition AUTHENTICATE_reply : BaseResponse :=
  Response "AUTHENTICATE" [ParamAny] ["904"; "907"; "908"].

Section sasl_spec.
Context `{Interface, Matching, Ircv3}.

(** The server once [AUTHENTICATE arg] is enqueued and a wait for
    [response] is registered. *)
Definition authenticating (arg : string) (response : BaseResponse)
    (s : Server) : Server :=
  register response (put (build "AUTHENTICATE" [arg]) SendPriority_DEFAULT s).

(** [mech] is the first mechanism of the priority order that the
    server supports. *)
Definition first_common (server_mechs : list string) (mech : string) : Prop :=
  ∃ i, SASL_USERPASS_MECHANISMS !! i = Some mech
    ∧ mech ∈ server_mechs
    ∧ ∀ j m, j < i → SASL_USERPASS_MECHANISMS !! j = Some m →
        m ∉ server_mechs.

(** The text sent for PLAIN, before base64. *)
Definition plain_payload (username password : string) : string :=
  username +:+ Py.NUL +:+ username +:+ Py.NUL +:+ password.

Definition b64 (text : string) : string :=
  Py.decode_ascii (Py.b64encode (Py.encode_utf8 text)).
End sasl_spec.

Section sasl_spec_selection.
Context `{Interface, Matching, Ircv3}.

(** The mechanism [sasl_userpass] starts with on [s]: the first common
    one when the server lists its mechanisms, the head of the priority
    order when it does not. *)
Definition selected (s : Server) (mech : string) : Prop :=
  match available_caps s !! "sasl" with
  | Some (Some v) =>
      _common_for SASL_USERPASS_MECHANISMS (Py.split "," v) = Some mech
  | Some None => SASL_USERPASS_MECHANISMS !! 0 = Some mech
  | None => False
  end.

(** On [AUTHENTICATE +] the continuation [k] sends the base64 of the
    PLAIN payload and waits for 903 or 904; 903 gives [SUCCESS]. *)
Definition plain_exchange (username password : string)
    (k : Line → Server → Step SASLResult) : Prop :=
  ∀ l s2,
    irctokens.command l = "AUTHENTICATE" →
    irctokens.params l !! 0 = Some "+" →
    ∃ k2, k l s2 = Await
            (authenticating (b64 (plain_payload username password))
               (Numerics ["903"; "904"]) s2)
            (length (futures s2)) k2
      ∧ ∀ l2 s4, irctokens.command l2 = "903" →
          k2 l2 s4 = Return SUCCESS s4.

(** The continuation [k] of [sasl_userpass] at its first wait, [mech]
    being the mechanism it started with. *)
Definition userpass_replies (username password mech : string)
    (k : Line → Server → Step SASLResult) : Prop :=
  (∀ l s2, irctokens.command l = "907" → k l s2 = Return ALREADY s2)
  ∧ (∀ l s2 v m,
       irctokens.command l = "908" → irctokens.params l !! 1 = Some v →
       _common_for SASL_USERPASS_MECHANISMS (Py.split "," v) = Some m →
       ∃ k', k l s2 = Await
         (authenticating m (Response "AUTHENTICATE" [ParamAny] []) s2)
         (length (futures s2)) k'
         ∧ (m = "PLAIN" → plain_exchange username password k'))
  ∧ (∀ l s2 v,
       irctokens.command l = "908" → irctokens.params l !! 1 = Some v →
       _common_for SASL_USERPASS_MECHANISMS (Py.split "," v) = None →
       k l s2 = Raise (SASLUnkownMechanismError (Py.split "," v)) s2)
  ∧ (mech = "PLAIN" → plain_exchange username password k).

(** The continuation [k] of [sasl_external] at its first wait. *)
Definition external_replies (k : Line → Server → Step SASLResult) : Prop :=
  (∀ l s2, irctokens.command l = "907" → k l s2 = Return ALREADY s2)
  ∧ (∀ l s2 v,
       irctokens.command l = "908" → irctokens.params l !! 1 = Some v →
       k l s2 = Raise (SASLUnkownMechanismError (Py.split "," v)) s2)
  ∧ (∀ l s2,
       irctokens.command l = "AUTHENTICATE" →
       irctokens.params l !! 0 = Some "+" →
       ∃ k2, k l s2 = Await (authenticating "+" (Numerics ["903"; "904"]) s2)
                        (length (futures s2)) k2
         ∧ ∀ l2 s4, irctokens.command l2 = "903" →
             k2 l2 s4 = Return SUCCESS s4).
End sasl_spec_selection.

(** ** Specification of capability negotiation *)

Section cap_spec.
Context `{Interface, Matching, Ircv3}.

(** The capabilities asked about at the end of CAP LS: the built-in
    ones, the queued ones, and sasl when SASL is configured. *)
Definition request_list (s : Server) : list Capability :=
  (CAPS ++ elements (_cap_queue s))
    ++ (if ConnectionParams.sasl (params s) is Some _ then [CAP_SASL] else []).

(** The names under which the server advertises them. *)
Definition advertised (s : Server) : list string :=
  Py.filter_bool
    ((λ c, available c (map_to_list (available_caps s)).*1)
       <$> request_list s).

Definition CAP_REQ (tokens : list string) : PriorityLine :=
  mkPriorityLine SendPriority_DEFAULT (build "CAP" ["REQ"; Py.join " " tokens]).

Definition CAP_END : PriorityLine :=
  mkPriorityLine SendPriority_DEFAULT (build "CAP" ["END"]).

(** The tokens of a message, [emit.tokens or []]. *)
Definition tokens_of (emit : Emit) : list string :=
  default [] (ircstates.tokens emit).

(** [requested] after the tokens of one message: each token that is in
    the list takes its first occurrence away. *)
Definition remove_tokens (tokens requested : list string) : list string :=
  foldl (λ r cap, if decide (cap ∈ r) then Py.remove cap r else r)
    requested tokens.


(** [_cap_ack] does not hand off to SASL on [s]. *)
Definition no_sasl_handoff (s : Server) : Prop :=
  ConnectionParams.sasl (params s) = None ∨ cap_agreed CAP_SASL s = false.

(** [_cap_ack] hands off to a SASL attempt on [s]: SASL is configured
    with one of the two mechanisms that [_cap_ack] knows, and sasl is
    agreed. *)
Definition sasl_handoff (s : Server) : Prop :=
  ∃ cfg, ConnectionParams.sasl (params s) = Some cfg
    ∧ cap_agreed CAP_SASL s = true
    ∧ (SASLParams.mechanism cfg = "USERPASS"
       ∨ SASLParams.mechanism cfg = "EXTERNAL").



(** What the SASL hand-off of [_cap_ack] runs for the configuration. *)
Definition sasl_attempt (cfg : SASLParams.t) : Coro SASLResult :=
  if decide (SASLParams.mechanism cfg = "USERPASS")
  then sasl_userpass (Py.or_empty (SASLParams.username cfg))
         (Py.or_empty (SASLParams.password cfg))
  else sasl_external.

(** The continuation [k] goes on with the tokens of [emit] once the
    reply [l] has ended the SASL attempt. *)
Definition then_tokens (emit : Emit) (l : Line)
    (k : Line → Server → Step unit) : Prop :=
  ∀ s2, k l s2 = _cap_ack_tokens emit s2.
End cap_spec.

(** ** Sample servers and lines, for the concrete cases *)

Section samples.
Local Existing Instances spec_match spec_ircv3 spec_interface.

Definition userpass_cfg : SASLParams.t :=
  SASLParams.mk "USERPASS" (Some "alice") (Some "secret").

Definition external_cfg : SASLParams.t :=
  SASLParams.mk "EXTERNAL" None None.

Definition sample_params (sasl : option SASLParams.t) : ConnectionParams.t :=
  ConnectionParams.mk "robot" None None sasl.

(** A connected server that was offered [caps] and has agreed on
    [agreed]. *)
Definition sample_server (caps : gmap string (option string))
    (agreed : list string) (sasl : option SASLParams.t) : Server :=
  mkServer _ caps agreed (sample_params sasl) [] ∅ [] [] [] [].

(** CAP LS gave [sasl=PLAIN,SCRAM-SHA-256], [sasl=PLAIN],
    [sasl=OAUTHBEARER], or [sasl] without a value. *)
Definition server_scram : Server :=
  sample_server {["sasl" := Some "PLAIN,SCRAM-SHA-256"]} ["sasl"]
    (Some userpass_cfg).

Definition server_plain : Server :=
  sample_server {["sasl" := Some "PLAIN"]} ["sasl"] (Some userpass_cfg).

Definition server_oauth : Server :=
  sample_server {["sasl" := Some "OAUTHBEARER"]} ["sasl"] (Some userpass_cfg).

Definition server_v31 : Server :=
  sample_server {["sasl" := None]} ["sasl"] (Some userpass_cfg).

Definition server_external : Server :=
  sample_server {["sasl" := None]} ["sasl"] (Some external_cfg).

(** No SASL configured; [requested] awaits ACK or NAK. *)
Definition server_requested (requested : list string) : Server :=
  set_requested_caps requested (sample_server ∅ [] None).

(** SASL EXTERNAL is configured and sasl is agreed; [sasl] awaits its
    ACK. *)
Definition server_sasl_requested : Server :=
  set_requested_caps ["sasl"] server_external.

(** The server only advertises [a]; [a] and [b] are queued. *)
Definition server_a_b : Server :=
  set_cap_queue {["a"; "b"]} (sample_server {["a" := None]} [] None).

(** Two waits that both match a 903 line. *)
Definition two_waits : Server :=
  register (Response "903" [ParamAny] [])
    (register (Numerics ["903"; "904"]) (sample_server ∅ [] None)).

Definition line_903 : Line := build "903" ["robot"; "SASL authentication successful"].
Definition line_907 : Line := build "907" ["robot"; "You have already authenticated"].
Definition line_plus : Line := build "AUTHENTICATE" ["+"].
Definition line_ping : Line := build "PING" ["irc.example.org"].

Definition ACK (tokens : list string) : Emit :=
  ircstates.mkEmit (Some "CAP") (Some "ACK") false (Some tokens).

Definition NAK (tokens : list string) : Emit :=
  ircstates.mkEmit (Some "CAP") (Some "NAK") false (Some tokens).

(** Four lines for one channel, all at the default priority. *)
Definition privmsg (text : string) : Line := build "PRIVMSG" ["#chan"; text].

Definition four_calls : list (Line * Z) :=
  (λ text, (privmsg text, SendPriority_DEFAULT)) <$> ["1"; "2"; "3"; "4"].

(** Lines at three priorities. *)
Definition mixed_calls : list (Line * Z) :=
  [(privmsg "low", 20%Z); (build "PONG" ["x"], 0%Z); (privmsg "mid", 10%Z)].

(** The lines in the write queue, in heap order. *)
Definition queued (s : Server) : list Line := line <$> _write_queue s.
End samples.

(** ** Specification of the further properties *)

(** How often [x] occurs in [l]. *)
Definition occurrences (x : string) (l : list string) : nat :=
  length (filter (λ y, y = x) l).

Section handshake_spec.
Context `{Interface, Matching, Ircv3}.

(** What is sent for a user or real name: the name when one is given
    and is not empty, the nickname otherwise. *)
Definition name_sent (nickname : string) (name : option string) : string :=
  match name with
  | Some (String a v) => String a v
  | Some EmptyString | None => nickname
  end.

(** The lines of the registration handshake for [p]. *)
Definition handshake (p : ConnectionParams.t) : list Line :=
  let nickname := ConnectionParams.nickname p in
  [build "CAP" ["LS"];
   build "NICK" [nickname];
   build "USER" [name_sent nickname (ConnectionParams.username p); "0"; "*";
                 name_sent nickname (ConnectionParams.realname p)]].

Definition PONG (line : Line) : PriorityLine :=
  mkPriorityLine SendPriority_DEFAULT (build "PONG" (irctokens.params line)).
End handshake_spec.

Section cap_more_spec.
Context `{Interface, Matching, Ircv3}.

(** From [s] to [s'] only the requested capabilities and the write
    queue may have changed. *)
Definition cap_frame (s s' : Server) : Prop :=
  available_caps s' = available_caps s ∧ agreed_caps s' = agreed_caps s
  ∧ params s' = params s ∧ _cap_queue s' = _cap_queue s
  ∧ _wait_for s' = _wait_for s ∧ futures s' = futures s
  ∧ _writer s' = _writer s.

(** An emit that [_on_read_emit] has nothing to do for: not CAP, a CAP
    LS that is not the last of its list, or another subcommand. *)
Definition ignored (emit : Emit) : Prop :=
  ircstates.command emit ≠ Some "CAP"
  ∨ (ircstates.subcommand emit = Some "LS"
     ∧ ircstates.finished emit = false)
  ∨ ircstates.subcommand emit ∉ [Some "LS"; Some "ACK"; Some "NAK"].

(** The names the server lists, as [available] sees them. *)
Definition offered (s : Server) : list string :=
  (map_to_list (available_caps s)).*1.
End cap_more_spec.

(** ** Further sample servers and lines *)

Section more_samples.
Local Existing Instances spec_match spec_ircv3 spec_interface.

(** A connected server with nothing offered, queued or awaited. *)
Definition fresh_server : Server := sample_server ∅ [] None.

(** The user name is empty, the real name is given. *)
Definition params_empty_username : ConnectionParams.t :=
  ConnectionParams.mk "robot" (Some "") (Some "IRC robot") None.

Definition three_lines : list Line := privmsg <$> ["1"; "2"; "3"].

(** Three lines wait in the write queue, the most urgent at the head. *)
Definition queued_server : Server :=
  set_write_queue
    [mkPriorityLine 0 (build "PONG" ["x"]);
     mkPriorityLine 20 (privmsg "low");
     mkPriorityLine 10 (privmsg "mid")]
    fresh_server.

(** A wait for PONG is registered. *)
Definition server_waiting_pong : Server :=
  register (Response "PONG" [ParamAny] []) fresh_server.

Definition server_plain_waiting_pong : Server :=
  register (Response "PONG" [ParamAny] []) server_plain.

(** SASL is agreed, the configured mechanism is none of the two that
    [_cap_ack] knows. *)
Definition server_unknown_mechanism : Server :=
  set_requested_caps ["sasl"]
    (sample_server {["sasl" := None]} ["sasl"]
       (Some (SASLParams.mk "PLAIN" (Some "alice") (Some "secret")))).

(** The server advertises [a] and [b]; both are queued. *)
Definition server_offers_a_b : Server :=
  set_cap_queue {["a"; "b"]}
    (sample_server {["a" := None; "b" := None]} [] None).

(** The server advertises [a]; nothing is queued. *)
Definition server_offers_a : Server := sample_server {["a" := None]} [] None.

Definition cap_a : Capability := "a".

Definition LS_done : Emit :=
  ircstates.mkEmit (Some "CAP") (Some "LS") true None.

Definition LS_more : Emit :=
  ircstates.mkEmit (Some "CAP") (Some "LS") false None.

Definition JOIN_self : Emit :=
  ircstates.mkEmit (Some "JOIN") None false None.

Definition CAP_NEW : Emit :=
  ircstates.mkEmit (Some "CAP") (Some "NEW") false (Some ["b"]).

Definition line_cap : Line := build "CAP" ["*"; "ACK"; "b a"].
End more_samples.

(** * Proofs *)

(** Running a coroutine on a server, up to the first step that needs a
    fact from the context. *)
Ltac coro_head :=
  lazymatch goal with
  | |- context [bind ?c ?g ?s] =>
      change (bind c g s) with (bind_step (c s) g)
  end.

Ltac coro_run :=
  repeat first
    [ progress cbn [bind_step get ret raise modify send]
    | coro_head ].

(** ** The primitives on concrete inputs *)

Example split_two :
  Py.split "," "PLAIN,SCRAM-SHA-256" = ["PLAIN"; "SCRAM-SHA-256"].
Proof. reflexivity. Qed.

Example split_empty_fields : Py.split "," ",a," = [""; "a"; ""].
Proof. reflexivity. Qed.

Example join_three : Py.join " " ["a"; "b"; "c"] = "a b c".
Proof. reflexivity. Qed.

Example b64encode_rfc4648 :
  (λ s, Py.decode_ascii (Py.b64encode (Py.encode_utf8 s)))
    <$> [""; "f"; "fo"; "foo"; "foob"; "fooba"; "foobar"]
  = [""; "Zg=="; "Zm8="; "Zm9v"; "Zm9vYg=="; "Zm9vYmE="; "Zm9vYmFy"].
Proof. reflexivity. Qed.

Example heapq_sorts :
  heapq.popall Z.ltb 8
    (foldl (heapq.heappush Z.ltb) [] [5; 3; 8; 1; 9; 2; 7; 3]%Z)
  = [1; 2; 3; 3; 5; 7; 8; 9]%Z.
Proof. reflexivity. Qed.

(** ** The heap *)
Section heapq_correct.
Context {A : Type} (lt : A → A → bool) (key : A → Z).
Hypothesis lt_key : ∀ x y, lt x y = true ↔ (key x < key y)%Z.

Lemma parent_lt j : 0 < j → parent j < j.
Proof. unfold parent. intros. apply Nat.Div0.div_lt_upper_bound; lia. Qed.

Lemma parent_spec j p : 0 < j → parent j = p ↔ j = 2 * p + 1 ∨ j = 2 * p + 2.
Proof.
  unfold parent. intros Hj. split.
  - intros <-. pose proof (Nat.div_mod_eq (j - 1) 2) as E.
    pose proof (Nat.mod_upper_bound (j - 1) 2). lia.
  - intros [-> | ->].
    + replace (2 * p + 1 - 1) with (p * 2) by lia. apply Nat.div_mul. lia.
    + replace (2 * p + 2 - 1) with (1 + p * 2) by lia.
      rewrite Nat.div_add by lia. reflexivity.
Qed.

Lemma insert_swap_head (l : list A) (j : nat) (x y : A) :
  l !! j = Some y → y :: <[j := x]> l ≡ₚ x :: l.
Proof.
  revert j. induction l as [|a l IH]; intros [|j] Hj; simplify_eq/=.
  - apply perm_swap.
  - rewrite (perm_swap a y), (IH _ Hj). apply perm_swap.
Qed.

Lemma insert_swap (l : list A) (i j : nat) (x y : A) :
  i ≠ j → i < length l → l !! j = Some y →
  <[j := x]> (<[i := y]> l) ≡ₚ <[i := x]> l.
Proof.
  revert i j. induction l as [|a l IH]; intros [|i] [|j] Hne Hi Hj; simplify_eq/=; try lia.
  - by apply insert_swap_head.
  - destruct (lookup_lt_is_Some_2 l i ltac:(lia)) as [b Hb].
    apply (Permutation_cons_inv (a := b)).
    rewrite (perm_swap x b), (insert_swap_head l i y b Hb).
    rewrite (perm_swap y b), (insert_swap_head l i x b Hb).
    apply perm_swap.
  - f_equiv. apply IH; [congruence|lia|done].
Qed.

Lemma hole_down_place h pos newitem :
  pos < length h → hole_down key h pos newitem →
  (pos = 0 ∨ ∃ p, h !! parent pos = Some p ∧ (key p ≤ key newitem)%Z) →
  heap_ordered key (<[pos := newitem]> h).
Proof.
  intros Hlen (Ha & Hb & Hc) Hroot j x y Hj Hx Hy.
  pose proof (parent_lt j Hj) as Hpj.
  destruct (decide (j = pos)) as [->|Hjp].
  - rewrite list_lookup_insert_eq in Hy by done.
    rewrite list_lookup_insert_ne in Hx by lia. simplify_eq.
    destruct Hroot as [?|(p & Hp & Hle)]; [lia|]. by simplify_eq.
  - rewrite list_lookup_insert_ne in Hy by done.
    destruct (decide (parent j = pos)) as [E|Hpp].
    + rewrite E, list_lookup_insert_eq in Hx by done. simplify_eq. eauto.
    + rewrite list_lookup_insert_ne in Hx by done. eauto.
Qed.

Lemma hole_down_step h pos newitem p :
  0 < pos → pos < length h → hole_down key h pos newitem →
  h !! parent pos = Some p → (key newitem < key p)%Z →
  hole_down key (<[pos := p]> h) (parent pos) newitem.
Proof.
  intros Hpos Hlen (Ha & Hb & Hc) Hp Hlt.
  pose proof (parent_lt pos Hpos) as Hpp.
  split_and!.
  - intros j x y Hj Hjq Hpq Hx Hy.
    pose proof (parent_lt j Hj).
    destruct (decide (j = pos)) as [->|Hjp]; [done|].
    rewrite list_lookup_insert_ne in Hy by done.
    destruct (decide (parent j = pos)) as [E|Hne].
    + rewrite E, list_lookup_insert_eq in Hx by done. simplify_eq.
      by eapply (Hc j).
    + rewrite list_lookup_insert_ne in Hx by done. eauto.
  - intros j y Hj E Hy.
    destruct (decide (j = pos)) as [->|Hjp].
    + rewrite list_lookup_insert_eq in Hy by done. simplify_eq. lia.
    + rewrite list_lookup_insert_ne in Hy by done.
      pose proof (parent_lt j Hj).
      assert (key p ≤ key y)%Z; [|lia].
      eapply (Ha j); eauto; try lia. by rewrite E.
  - intros j x y Hj Hq E Hx Hy.
    pose proof (parent_lt (parent pos) Hq).
    rewrite list_lookup_insert_ne in Hx by lia.
    assert (key x ≤ key p)%Z by (eapply (Ha (parent pos)); eauto; lia).
    destruct (decide (j = pos)) as [->|Hjp].
    + rewrite list_lookup_insert_eq in Hy by done. by simplify_eq.
    + rewrite list_lookup_insert_ne in Hy by done.
      pose proof (parent_lt j Hj).
      assert (key p ≤ key y)%Z; [|lia].
      eapply (Ha j); eauto; try lia. by rewrite E.
Qed.

Lemma lt_false x y : lt x y = false ↔ (key y ≤ key x)%Z.
Proof.
  destruct (lt x y) eqn:E.
  - apply lt_key in E. split; [done|lia].
  - split; [|done]. intros _.
    destruct (decide (key x < key y)%Z) as [Hlt|]; [|lia].
    apply lt_key in Hlt. congruence.
Qed.

Lemma _siftdown_loop_ordered fuel h pos newitem :
  pos ≤ fuel → pos < length h → hole_down key h pos newitem →
  heap_ordered key (heapq._siftdown_loop lt fuel h 0 pos newitem).
Proof.
  revert h pos.
  induction fuel as [|fuel IH]; intros h pos Hfuel Hlen Hh;
    cbn [heapq._siftdown_loop]; cbv zeta.
  { apply hole_down_place; auto with lia. }
  destruct (decide (0 < pos)) as [Hpos|]; [|apply hole_down_place; auto with lia].
  pose proof (parent_lt pos Hpos) as Hpp. fold (parent pos).
  destruct (lookup_lt_is_Some_2 h (parent pos)) as [p Hp]; [lia|].
  rewrite Hp. destruct (lt newitem p) eqn:Hlt.
  - apply IH; [lia|rewrite length_insert; lia|].
    apply hole_down_step; auto. by apply lt_key.
  - apply hole_down_place; auto. right. exists p. split; [done|].
    by apply lt_false.
Qed.

Lemma _siftdown_loop_perm fuel h pos newitem :
  pos < length h →
  heapq._siftdown_loop lt fuel h 0 pos newitem ≡ₚ <[pos := newitem]> h.
Proof.
  revert h pos.
  induction fuel as [|fuel IH]; intros h pos Hlen;
    cbn [heapq._siftdown_loop]; cbv zeta; [done|].
  destruct (decide (0 < pos)) as [Hpos|]; [|done].
  pose proof (parent_lt pos Hpos) as Hpp. fold (parent pos).
  destruct (lookup_lt_is_Some_2 h (parent pos)) as [p Hp]; [lia|].
  rewrite Hp. destruct (lt newitem p); [|done].
  rewrite IH by (rewrite length_insert; lia).
  apply insert_swap; [lia|done|done].
Qed.

(** Fuel: any amount from [pos] on gives the same list, so the loop
    never stops for lack of it. *)
Lemma _siftdown_loop_fuel fuel fuel' h startpos pos newitem :
  pos ≤ fuel → pos ≤ fuel' →
  heapq._siftdown_loop lt fuel h startpos pos newitem
  = heapq._siftdown_loop lt fuel' h startpos pos newitem.
Proof.
  revert fuel' h pos.
  induction fuel as [|fuel IH]; intros [|fuel'] h pos Hf Hf';
    cbn [heapq._siftdown_loop]; cbv zeta; try done.
  - by rewrite decide_False by lia.
  - by rewrite decide_False by lia.
  - destruct (decide (startpos < pos)) as [Hpos|]; [|done].
    pose proof (parent_lt pos ltac:(lia)) as Hpp. fold (parent pos).
    destruct (h !! parent pos) as [p|]; [|done].
    destruct (lt newitem p); [|done]. apply IH; lia.
Qed.

Lemma heap_ordered_hole_leaf h pos newitem :
  length h ≤ 2 * pos + 1 →
  (∀ j x y, 0 < j → j ≠ pos → parent j ≠ pos →
     h !! parent j = Some x → h !! j = Some y → (key x ≤ key y)%Z) →
  hole_down key h pos newitem.
Proof.
  intros Hleaf Ha. split_and!; [done|..].
  - intros j y Hj E Hy. apply lookup_lt_Some in Hy.
    apply parent_spec in E; [lia|done].
  - intros j x y Hj _ E _ Hy. apply lookup_lt_Some in Hy.
    apply parent_spec in E; [lia|done].
Qed.

Theorem heappush_ordered h item :
  heap_ordered key h → heap_ordered key (heapq.heappush lt h item).
Proof.
  intros Hh. unfold heapq.heappush, heapq._siftdown.
  rewrite list_lookup_middle by done.
  apply _siftdown_loop_ordered; [done|rewrite length_app; simpl; lia|].
  apply heap_ordered_hole_leaf; [rewrite length_app; simpl; lia|].
  intros j x y Hj Hne Hpne Hx Hy.
  pose proof (parent_lt j Hj). apply lookup_lt_Some in Hy as Hjlen.
  rewrite length_app in Hjlen. simpl in Hjlen.
  rewrite lookup_app_l in Hx, Hy by lia. eauto.
Qed.

Theorem heappush_perm h item : heapq.heappush lt h item ≡ₚ item :: h.
Proof.
  unfold heapq.heappush, heapq._siftdown.
  rewrite list_lookup_middle by done.
  rewrite _siftdown_loop_perm by (rewrite length_app; simpl; lia).
  rewrite list_insert_id by (by apply list_lookup_middle).
  by rewrite Permutation_app_comm.
Qed.

Lemma hole_up_step h pos ci c :
  pos < length h → hole_up key h pos → parent ci = pos → 0 < ci →
  h !! ci = Some c →
  (∀ j y, 0 < j → parent j = pos → h !! j = Some y → (key c ≤ key y)%Z) →
  hole_up key (<[pos := c]> h) ci.
Proof.
  intros Hlen (Ha & Hc) Eci Hci Hcv Hmin.
  pose proof (parent_lt ci Hci) as Hlt.
  split.
  - intros j x y Hj Hpne Hx Hy. pose proof (parent_lt j Hj).
    destruct (decide (j = pos)) as [->|Hjp].
    + rewrite list_lookup_insert_eq in Hy by done.
      rewrite list_lookup_insert_ne in Hx by lia. simplify_eq.
      eapply (Hc ci); eauto with lia.
    + rewrite list_lookup_insert_ne in Hy by done.
      destruct (decide (parent j = pos)) as [E|Hne].
      * rewrite E, list_lookup_insert_eq in Hx by done. simplify_eq. eauto.
      * rewrite list_lookup_insert_ne in Hx by done. eauto.
  - intros j x y Hj _ E Hx Hy. pose proof (parent_lt j Hj).
    rewrite Eci, list_lookup_insert_eq in Hx by done.
    rewrite list_lookup_insert_ne in Hy by lia.
    injection Hx as <-.
    eapply (Ha j); [done|lia|by rewrite E|done].
Qed.

Lemma _siftup_loop_spec fuel h pos h' leaf :
  length h ≤ fuel + pos → pos < length h → hole_up key h pos →
  heapq._siftup_loop lt fuel h pos = (h', leaf) →
  hole_up key h' leaf ∧ length h' = length h ∧ leaf < length h
  ∧ length h ≤ 2 * leaf + 1
  ∧ ∀ x, <[leaf := x]> h' ≡ₚ <[pos := x]> h.
Proof.
  revert h pos.
  induction fuel as [|fuel IH]; intros h pos Hfuel Hlen Hh;
    cbn [heapq._siftup_loop]; cbv zeta; [lia|].
  destruct (decide (2 * pos + 1 < length h)) as [Hchild|Hleaf];
    [|intros [= <- <-]; split_and!; auto with lia].
  destruct (lookup_lt_is_Some_2 h (2 * pos + 1)) as [l Hl]; [done|].
  rewrite Hl.
  assert (∃ ci c, h !! ci = Some c ∧ parent ci = pos ∧ 0 < ci
    ∧ (∀ j y, 0 < j → parent j = pos → h !! j = Some y →
         (key c ≤ key y)%Z)
    ∧ match h !! (2 * pos + 1 + 1) with
      | Some r => if lt l r then 2 * pos + 1 else 2 * pos + 1 + 1
      | None => 2 * pos + 1
      end = ci) as (ci & c & Hc & Eci & Hci & Hmin & ->).
  { assert (∀ j, 0 < j → parent j = pos → j = 2 * pos + 1 ∨ j = 2 * pos + 1 + 1)
      as Hkids.
    { intros j Hj E. apply parent_spec in E; [lia|done]. }
    assert (parent (2 * pos + 1) = pos) by (apply parent_spec; lia).
    assert (parent (2 * pos + 1 + 1) = pos) by (apply parent_spec; lia).
    destruct (h !! (2 * pos + 1 + 1)) as [r|] eqn:Hr.
    - destruct (lt l r) eqn:Hlt.
      + exists (2 * pos + 1), l. split_and!; auto with lia.
        intros j y Hj E Hy. apply lt_key in Hlt.
        destruct (Hkids j Hj E) as [-> | ->]; simplify_eq; lia.
      + exists (2 * pos + 1 + 1), r. split_and!; auto with lia.
        intros j y Hj E Hy. apply lt_false in Hlt.
        destruct (Hkids j Hj E) as [-> | ->]; simplify_eq; lia.
    - exists (2 * pos + 1), l. split_and!; auto with lia.
      intros j y Hj E Hy.
      destruct (Hkids j Hj E) as [-> | ->]; simplify_eq; lia. }
  rewrite Hc. intros Hrun.
  pose proof (parent_lt ci Hci) as Hlt. apply lookup_lt_Some in Hc as Hcilen.
  apply IH in Hrun as (Hup & Hlen' & Hleaf & Hend & Hperm).
  - rewrite length_insert in *. split_and!; auto.
    intros x. rewrite Hperm. apply insert_swap; [lia|done|done].
  - rewrite length_insert. lia.
  - by rewrite length_insert.
  - by apply hole_up_step.
Qed.

Lemma _siftup_loop_fuel fuel fuel' h pos :
  length h ≤ fuel + pos → length h ≤ fuel' + pos →
  heapq._siftup_loop lt fuel h pos = heapq._siftup_loop lt fuel' h pos.
Proof.
  revert fuel' h pos.
  induction fuel as [|fuel IH]; intros [|fuel'] h pos Hf Hf';
    cbn [heapq._siftup_loop]; cbv zeta; try done.
  - by rewrite decide_False by lia.
  - by rewrite decide_False by lia.
  - destruct (decide (2 * pos + 1 < length h)) as [Hchild|]; [|done].
    set (ci := match h !! (2 * pos + 1) with
               | Some l =>
                   match h !! (2 * pos + 1 + 1) with
                   | Some r => if lt l r then 2 * pos + 1 else 2 * pos + 1 + 1
                   | None => 2 * pos + 1
                   end
               | None => 2 * pos + 1
               end).
    assert (pos < ci) as Hci.
    { unfold ci. repeat case_match; lia. }
    destruct (h !! ci) as [c|]; [|done].
    apply IH; rewrite length_insert; lia.
Qed.

Lemma _siftup_root h :
  h ≠ [] → hole_up key h 0 →
  heap_ordered key (heapq._siftup lt h 0) ∧ heapq._siftup lt h 0 ≡ₚ h.
Proof.
  intros Hne Hup. unfold heapq._siftup.
  destruct h as [|newitem t] eqn:Eh; [done|]. rewrite <- Eh in *.
  assert (h !! 0 = Some newitem) as -> by by subst.
  assert (0 < length h) by (subst; simpl; lia).
  destruct (heapq._siftup_loop lt (length h) h 0) as [h' leaf] eqn:Hrun.
  apply _siftup_loop_spec in Hrun as ((Ha & _) & Hlen & Hleaf & Hend & Hperm);
    [|lia|done|done].
  unfold heapq._siftdown.
  rewrite list_lookup_insert_eq by lia. split.
  - apply _siftdown_loop_ordered; [done|rewrite length_insert; lia|].
    apply heap_ordered_hole_leaf; [rewrite length_insert; lia|].
    intros j x y Hj Hjl Hpl Hx Hy.
    rewrite list_lookup_insert_ne in Hx, Hy by done. eauto.
  - rewrite _siftdown_loop_perm by (rewrite length_insert; lia).
    rewrite list_insert_insert_eq, Hperm.
    by rewrite list_insert_id by by subst.
Qed.

Lemma heap_ordered_root h r :
  heap_ordered key h → h !! 0 = Some r → ∀ y, y ∈ h → (key r ≤ key y)%Z.
Proof.
  intros Hh Hr y [j Hy]%list_elem_of_lookup. revert y Hy.
  induction (lt_wf j) as [j _ IH]. intros y Hy.
  destruct (decide (j = 0)) as [->|Hj]; [simplify_eq; lia|].
  pose proof (parent_lt j ltac:(lia)) as Hlt.
  destruct (lookup_lt_is_Some_2 h (parent j)) as [x Hx].
  { apply lookup_lt_Some in Hy. lia. }
  specialize (IH _ Hlt x Hx).
  assert (key x ≤ key y)%Z by (eapply (Hh j); eauto; lia). lia.
Qed.

Lemma heap_ordered_prefix h t : heap_ordered key (h ++ t) → heap_ordered key h.
Proof.
  intros Hh j x y Hj Hx Hy. eapply (Hh j); eauto using lookup_app_l_Some.
Qed.

Theorem heappop_spec h :
  heap_ordered key h → h ≠ [] →
  ∃ x h', heapq.heappop lt h = Some (x, h') ∧ h ≡ₚ x :: h'
    ∧ heap_ordered key h' ∧ ∀ y, y ∈ h → (key x ≤ key y)%Z.
Proof.
  intros Hh Hne. unfold heapq.heappop.
  destruct h as [|a h0 _] using rev_ind; [done|].
  rewrite last_snoc, length_app. simpl.
  replace (length h0 + 1 - 1) with (length h0) by lia.
  rewrite take_app_length.
  destruct h0 as [|r t] eqn:Eh0.
  { exists a, []. split_and!; [done|done|by intros j x y _ Hx|].
    intros y ->%list_elem_of_singleton. lia. }
  exists r, (heapq._siftup lt (<[0 := a]> (r :: t)) 0).
  destruct (_siftup_root (<[0 := a]> (r :: t))) as [Hord Hperm]; [done|..].
  { split; [|intros; lia].
    apply heap_ordered_prefix in Hh.
    intros j x y Hj Hp Hx Hy.
    pose proof (parent_lt j Hj).
    rewrite list_lookup_insert_ne in Hx, Hy by lia. eauto. }
  split_and!; [done| |done|].
  - rewrite Hperm. simpl. f_equiv. symmetry.
    apply Permutation_cons_append.
  - by apply heap_ordered_root.
Qed.

Theorem popall_sorted h :
  heap_ordered key h →
  heapq.popall lt (length h) h ≡ₚ h
  ∧ StronglySorted Z.le (key <$> heapq.popall lt (length h) h).
Proof.
  remember (length h) as n eqn:En. revert h En.
  induction n as [|n IH]; intros h En Hh.
  { destruct h; [|done]. simpl. split; [done|constructor]. }
  destruct (heappop_spec h Hh) as (x & h' & Hpop & Hperm & Hh' & Hmin).
  { by destruct h. }
  cbn [heapq.popall]. rewrite Hpop.
  assert (n = length h') as En'.
  { apply Permutation_length in Hperm. simpl in Hperm. lia. }
  destruct (IH h' En' Hh') as [IHp IHs].
  split; [by rewrite IHp|].
  rewrite fmap_cons. constructor; [done|].
  apply Forall_fmap, Forall_forall. intros y Hy. simpl.
  apply Hmin. rewrite Hperm, <- IHp. by right.
Qed.
End heapq_correct.

Section registry.
Context `{Interface, Matching, Ircv3}.

Lemma first_match_Some line entries i0 i f :
  first_match line i0 entries = Some (i, f) →
  ∃ k m, i = i0 + k ∧ first_matching line entries k m f.
Proof.
  revert i0. induction entries as [|[m' f'] entries IH]; intros i0; simpl; [done|].
  destruct (match_ m' line) eqn:Hm.
  - intros [= <- <-]. exists 0, m'. split; [lia|].
    split_and!; [done|done|intros; lia].
  - intros (k & m & -> & Hk & Hmatch & Hfirst)%IH.
    exists (S k), m. split; [lia|]. split_and!; [done|done|].
    intros [|j] m'' f'' Hj Hlook; simplify_eq/=; [done|].
    eapply Hfirst; [|done]. lia.
Qed.

Lemma first_match_None line entries i0 :
  first_match line i0 entries = None →
  ∀ m f, (m, f) ∈ entries → match_ m line = false.
Proof.
  revert i0. induction entries as [|[m' f'] entries IH]; intros i0; simpl.
  { intros _ m f Hin. by apply elem_of_nil in Hin. }
  destruct (match_ m' line) eqn:Hm; [done|].
  intros Hnone m f [[= -> ->]|Hin]%elem_of_cons; [done|]. by eapply IH.
Qed.

Lemma elem_of_delete_ne {X} (l : list X) i x y :
  x ∈ l → l !! i = Some y → x ≠ y → x ∈ delete i l.
Proof.
  intros [j Hj]%list_elem_of_lookup Hi Hne.
  destruct (decide (j < i)).
  - apply list_elem_of_lookup. exists j. by rewrite list_lookup_delete_lt.
  - assert (j ≠ i) by congruence.
    apply list_elem_of_lookup. exists (j - 1).
    rewrite list_lookup_delete_ge by lia. by replace (S (j - 1)) with j by lia.
Qed.

Lemma server_wf_init p : server_wf (Server_init p).
Proof. split; simpl; constructor. Qed.

Lemma wait_for_wf response s :
  server_wf s →
  (∀ f, f ∈ (_wait_for s).*2 → f < length (futures s)) ∧
  ∃ s', wait_for response s = Return (length (futures s)) s'
    ∧ server_wf s'
    ∧ _wait_for s' = _wait_for s ++ [(response, length (futures s))]
    ∧ futures s' = futures s ++ [Pending].
Proof.
  intros [Hnd Hpend].
  assert (∀ f, f ∈ (_wait_for s).*2 → f < length (futures s)) as Hlt.
  { intros f Hf. rewrite Forall_forall in Hpend.
    by eapply lookup_lt_Some, Hpend. }
  split; [done|]. eexists. split; [done|]. split; [|done].
  split; simpl; rewrite fmap_app; simpl.
  - apply NoDup_app. split_and!; [done| |apply NoDup_singleton].
    intros f Hf ->%list_elem_of_singleton. apply Hlt in Hf. lia.
  - apply Forall_app. split.
    + eapply Forall_impl; [done|]. intros f Hf. simpl in Hf.
      by apply lookup_app_l_Some.
    + constructor; [|constructor]. by apply list_lookup_middle.
Qed.

Lemma _on_read_line_spec line s :
  server_wf s →
  ∃ s', _on_read_line line s = Return tt s' ∧ server_wf s'
    ∧ resolves_first line s s'.
Proof.
  intros Hwf. pose proof Hwf as [Hnd Hpend].
  rewrite Forall_forall in Hpend.
  unfold _on_read_line, bind, get. cbn [bind_step].
  destruct (first_match line 0 (_wait_for s)) as [[i f]|] eqn:Hfm.
  - apply first_match_Some in Hfm as (k & m & -> & Hk & Hm & Hfirst).
    simpl in *.
    assert (f ∈ (_wait_for s).*2) as Hf.
    { apply list_elem_of_fmap. exists (m, f). split; [done|].
      by eapply list_elem_of_lookup_2. }
    assert ((_wait_for s).*2 !! k = Some f) as Hk2.
    { by rewrite list_lookup_fmap, Hk. }
    assert (f ∉ (delete k (_wait_for s)).*2) as Hgone.
    { rewrite <- (take_drop_middle _ _ _ Hk2) in Hnd.
      apply NoDup_app in Hnd as (_ & Hdisj & [Hnotin _]%NoDup_cons).
      rewrite list_fmap_delete, delete_take_drop. 
      intros [Hin|Hin]%elem_of_app; [by eapply Hdisj; [|left]|done]. }
    unfold modify, set_result. cbn [bind_step futures set_wait_for].
    rewrite (Hpend f Hf). cbn [bind_step].
    assert (server_wf (set_futures (<[f:=Result line]> (futures s))
              (set_wait_for (delete k (_wait_for s)) s))) as Hwf'.
    { split; simpl.
      - rewrite list_fmap_delete. eapply sublist_NoDup; [done|apply sublist_delete].
      - apply Forall_forall. intros f' Hf'.
        rewrite list_lookup_insert_ne by congruence.
        apply Hpend. rewrite list_fmap_delete in Hf'.
        by eapply list_elem_of_delete_inv. }
    assert (∀ s2 : Server, _wait_for s2 = delete k (_wait_for s) →
              futures s2 = <[f:=Result line]> (futures s) →
              resolves_first line s s2) as Hres.
    { intros s2 Hw Hfut. left. exists k, m, f.
      rewrite Hw. split_and!; auto. by split_and!. }
    destruct (decide (irctokens.command line = "PING")); eexists;
      (split; [reflexivity|]);
      (split; [apply Hwf'|apply Hres; reflexivity]).
  - pose proof (first_match_None _ _ _ Hfm) as Hnone.
    cbn [ret bind_step].
    destruct (decide (irctokens.command line = "PING")); eexists;
      (split; [reflexivity|]); (split; [apply Hwf|]); right; done.
Qed.

Lemma resolves_first_results_kept line s s' :
  resolves_first line s s' → results_kept s s'.
Proof.
  intros [(i & m & f & _ & _ & Hpend & Hfut & _)|(_ & _ & Hfut)] f0 r Hr;
    rewrite Hfut; [|done].
  rewrite list_lookup_insert_ne; [done|]. congruence.
Qed.

Lemma resolves_first_later_waits line s s' :
  server_wf s' → resolves_first line s s' → later_waits_pending line s s'.
Proof.
  intros [_ Hpend'] Hres i1 m1 f1 i2 m2 f2 Hlt Hi1 Hm1 Hi2.
  rewrite Forall_forall in Hpend'.
  assert ((m2, f2) ∈ _wait_for s') as Hin; [|split; [done|]].
  - destruct Hres as [(i & m & f & (Hi & Hm & Hfirst) & Hw & _)|(Hnone & Hw & _)].
    + rewrite Hw. assert (i ≤ i1).
      { destruct (decide (i ≤ i1)); [done|].
        rewrite (Hfirst i1 m1 f1) in Hm1; [done|lia|done]. }
      apply list_elem_of_lookup. exists (i2 - 1).
      rewrite list_lookup_delete_ge by lia.
      by replace (S (i2 - 1)) with i2 by lia.
    + rewrite (Hnone m1 f1) in Hm1; [done|].
      by eapply list_elem_of_lookup_2.
  - apply Hpend'. apply list_elem_of_fmap. by exists (m2, f2).
Qed.

(** C1.  On a server whose registered futures are distinct and pending,
    [_on_read_line] returns, and it has resolved exactly the first
    registered wait that matches the line: that entry is removed and
    its future gets the line; no other entry or future changes, so at
    most one wait is resolved per line.  A wait registered behind a
    matching wait stays registered and pending.  The resolved future is
    no longer registered and every future that has a line keeps it, so
    no wait is resolved twice. *)
Theorem on_read_line_resolves_first (line : Line) (s : Server) :
  server_wf s →
  ∃ s', _on_read_line line s = Return tt s'
    ∧ server_wf s'
    ∧ resolves_first line s s'
    ∧ later_waits_pending line s s'
    ∧ results_kept s s'.
Proof.
  intros Hwf. destruct (_on_read_line_spec line s Hwf) as (s' & Hrun & Hwf' & Hres).
  exists s'. split_and!; [done|done|done|..].
  - by apply resolves_first_later_waits.
  - by eapply resolves_first_results_kept.
Qed.

Lemma registry_op_wf op s :
  server_wf s → ∃ s', registry_op op s = Return tt s' ∧ server_wf s'.
Proof.
  intros Hwf. destruct op as [response|line]; simpl.
  - destruct (wait_for_wf response s Hwf) as (_ & s' & Hrun & Hwf' & _).
    exists s'. unfold bind. by rewrite Hrun.
  - destruct (_on_read_line_spec line s Hwf) as (s' & Hrun & Hwf' & _).
    by exists s'.
Qed.

(** Every state that registrations and inbound lines lead to from a
    new server is well formed. *)
Lemma registry_ops_wf ops s :
  server_wf s →
  ∃ s', for_each ops registry_op s = Return tt s' ∧ server_wf s'.
Proof.
  revert s. induction ops as [|op ops IH]; intros s Hwf; simpl.
  { by exists s. }
  destruct (registry_op_wf op s Hwf) as (s1 & Hrun & Hwf1).
  destruct (IH s1 Hwf1) as (s' & Hrun' & Hwf').
  exists s'. unfold bind. by rewrite Hrun.
Qed.

Lemma set_exception_each (entries : list (BaseResponse * nat)) e s :
  NoDup entries.*2 →
  Forall (λ f, futures s !! f = Some Pending) entries.*2 →
  ∃ s', for_each entries (λ entry, set_exception entry.2 e) s = Return tt s'
    ∧ _wait_for s' = _wait_for s
    ∧ length (futures s') = length (futures s)
    ∧ (∀ f, f ∈ entries.*2 → futures s' !! f = Some (Exception e))
    ∧ (∀ f, f ∉ entries.*2 → futures s' !! f = futures s !! f).
Proof.
  revert s. induction entries as [|[m f] entries IH]; intros s Hnd Hpend.
  { exists s. split_and!; try done. by intros f Hf%elem_of_nil. }
  rewrite fmap_cons in Hnd, Hpend. simpl in Hnd, Hpend.
  apply NoDup_cons in Hnd as [Hf Hnd].
  apply Forall_cons in Hpend as [Hpf Hpend].
  rewrite Forall_forall in Hpend.
  cbn [for_each]. unfold bind at 1, set_exception at 1. simpl.
  rewrite Hpf. cbn [bind_step].
  destruct (IH (set_futures (<[f:=Exception e]> (futures s)) s))
    as (s' & Hrun & Hw & Hlen & Hin & Hout); [done|..].
  { apply Forall_forall. intros f' Hf'. simpl.
    rewrite list_lookup_insert_ne by congruence. by apply Hpend. }
  simpl in Hw, Hlen. rewrite length_insert in Hlen.
  exists s'. split_and!; [done|done|done|..].
  - intros f' [->|Hf']%elem_of_cons; [|by apply Hin].
    rewrite Hout by done. simpl.
    apply list_lookup_insert_eq. by eapply lookup_lt_Some.
  - intros f' [Hne Hf']%not_elem_of_cons.
    rewrite Hout by done. simpl. by rewrite list_lookup_insert_ne.
Qed.

Lemma teardown_spec s :
  server_wf s → ∃ s', teardown s = Return tt s' ∧ fails_pending s s'.
Proof.
  intros [Hnd Hpend]. unfold teardown, bind, get, modify. cbn [bind_step].
  destruct (set_exception_each (_wait_for s) ConnectionClosed
              (set_wait_for [] s)) as (s' & Hrun & Hw & Hlen & Hin & Hout);
    [done|done|].
  exists s'. split; [done|]. split_and!; [done|done| |done].
  intros m f Hmf.
  assert (f ∈ (_wait_for s).*2) as Hf.
  { apply list_elem_of_fmap. by exists (m, f). }
  rewrite Forall_forall in Hpend. split; [by apply Hpend|by apply Hin].
Qed.

Lemma _on_read_line_unmatched line m f s :
  server_wf s → (m, f) ∈ _wait_for s → match_ m line = false →
  ∃ s', _on_read_line line s = Return tt s' ∧ server_wf s'
    ∧ (m, f) ∈ _wait_for s'.
Proof.
  intros Hwf Hin Hm.
  destruct (_on_read_line_spec line s Hwf) as (s' & Hrun & Hwf' & Hres).
  exists s'. split_and!; [done|done|].
  destruct Hres as [(i & m' & f' & (Hi & Hm' & _) & -> & _)|(_ & -> & _)];
    [|done].
  eapply elem_of_delete_ne; [done|done|]. congruence.
Qed.

Lemma unmatched_still_pending lines m f s :
  server_wf s → (m, f) ∈ _wait_for s →
  Forall (λ l, match_ m l = false) lines →
  still_pending m f lines s.
Proof.
  revert s. induction lines as [|l lines IH]; intros s Hwf Hin Hlines.
  - exists s. split_and!; [done|done|].
    destruct Hwf as [_ Hpend]. rewrite Forall_forall in Hpend.
    apply Hpend, list_elem_of_fmap. by exists (m, f).
  - apply Forall_cons in Hlines as [Hl Hlines].
    destruct (_on_read_line_unmatched l m f s) as (s1 & Hrun & Hwf1 & Hin1);
      [done..|].
    destruct (IH s1 Hwf1 Hin1 Hlines) as (s' & Hrun' & Hin' & Hp').
    exists s'. split_and!; [|done|done].
    simpl. unfold bind. by rewrite Hrun.
Qed.

(** C9.  Teardown on a server with any number of pending waits returns
    (no future is failed twice, which would raise): the registry is
    empty, each of the waits, which have pairwise distinct pending
    futures, has failed with the connection-closed error, and no other
    future has changed.  Until then a wait that no inbound line
    matches stays registered and pending, whatever lines arrive. *)
Theorem teardown_fails_pending_waits (s : Server) :
  server_wf s →
  (∃ s', teardown s = Return tt s' ∧ fails_pending s s')
  ∧ NoDup (_wait_for s).*2
  ∧ ∀ m f lines,
      (m, f) ∈ _wait_for s → Forall (λ l, match_ m l = false) lines →
      still_pending m f lines s.
Proof.
  intros Hwf. split_and!.
  - by apply teardown_spec.
  - apply Hwf.
  - intros m f lines Hin Hlines. by apply unmatched_still_pending.
Qed.
End registry.

Section write_queue.
Context `{Interface, Matching, Ircv3}.

Lemma PriorityLine_lt_priority x y :
  PriorityLine_lt x y = true ↔ (priority x < priority y)%Z.
Proof. apply Z.ltb_lt. Qed.

Lemma send_spec l p s :
  send l p s = Return tt (put l p s).
Proof. reflexivity. Qed.

Lemma enqueue_all_spec calls s :
  heap_ordered priority (_write_queue s) →
  ∃ s', enqueue_all calls s = Return tt s'
    ∧ heap_ordered priority (_write_queue s')
    ∧ _write_queue s' ≡ₚ _write_queue s ++ (call_line <$> calls)
    ∧ _writer s' = _writer s.
Proof.
  revert s. induction calls as [|[l p] calls IH]; intros s Hs.
  { exists s. split_and!; try done. by rewrite app_nil_r. }
  unfold enqueue_all. cbn [for_each]. unfold bind at 1.
  rewrite send_spec. cbn [bind_step].
  destruct (IH (put l p s)) as (s' & Hrun & Hord & Hperm & Hw).
  { simpl. by apply (heappush_ordered _ _ PriorityLine_lt_priority). }
  exists s'. split_and!; [exact Hrun|done| |done].
  rewrite Hperm. simpl.
  rewrite heappush_perm.
  by rewrite <- Permutation_middle.
Qed.

Lemma _write_lines_loop_spec fuel lines queue :
  heap_ordered priority queue → lines ≠ [] ∨ queue ≠ [] →
  ∃ popped queue',
    _write_lines_loop fuel lines queue = Some (lines ++ (line <$> popped), queue')
    ∧ heap_ordered priority queue'
    ∧ heapq.popall PriorityLine_lt (length queue) queue
      = popped ++ heapq.popall PriorityLine_lt (length queue') queue'
    ∧ length queue = length popped + length queue'
    ∧ (0 < fuel → lines = [] → popped ≠ []).
Proof.
  revert lines queue.
  induction fuel as [|fuel IH]; intros lines queue Hq Hne; cbn [_write_lines_loop].
  { exists [], queue. rewrite app_nil_r. split_and!; auto with lia. }
  destruct (bool_decide (lines = [])
            || bool_decide (length lines < 5) && bool_decide (0 < length queue))
    eqn:Hcond; cycle 1.
  { exists [], queue. rewrite app_nil_r. split_and!; auto.
    intros _ ->. by rewrite bool_decide_eq_true_2 in Hcond. }
  assert (queue ≠ []) as Hqne.
  { apply orb_true_iff in Hcond as [Hl%bool_decide_eq_true|Hc].
    - by destruct Hne.
    - apply andb_true_iff in Hc as [_ Hc%bool_decide_eq_true].
      intros ->. simpl in Hc. lia. }
  destruct (heappop_spec _ _ PriorityLine_lt_priority queue Hq Hqne)
    as (x & q1 & Hpop & Hperm & Hq1 & _).
  rewrite Hpop.
  destruct (IH (lines ++ [line x]) q1 Hq1) as (popped & q' & Hrun & Hq' & Hall & Hlen & _).
  { left. by destruct lines. }
  exists (x :: popped), q'. apply Permutation_length in Hperm. simpl in Hperm.
  split_and!; [|done| |simpl; lia|done].
  - rewrite Hrun. by rewrite <- app_assoc.
  - rewrite Hperm. cbn [heapq.popall]. rewrite Hpop. by rewrite Hall.
Qed.

(** The fuel of the loop is enough: a cycle ends by the loop's own
    condition, with one to five lines, and with fewer than five only
    when the queue is empty. *)
Lemma _write_lines_loop_exit fuel lines queue out queue' :
  _write_lines_loop fuel lines queue = Some (out, queue') →
  length lines + fuel = 5 →
  length lines ≤ length out ≤ 5
  ∧ (length out = 5 ∨ queue' = [])
  ∧ 1 ≤ length out.
Proof.
  revert lines queue.
  induction fuel as [|fuel IH]; intros lines queue; cbn [_write_lines_loop].
  { intros [= <- <-] Hlen. lia. }
  destruct (bool_decide (lines = [])) eqn:Hnil; simpl.
  - apply bool_decide_eq_true in Hnil as ->.
    destruct (heapq.heappop PriorityLine_lt queue) as [[x q1]|]; [|done].
    intros Hrun Hlen. apply IH in Hrun as (Hle & Hend & Hone);
      [|simpl in *; lia].
    simpl in *. split_and!; [lia|lia|done|done].
  - apply bool_decide_eq_false in Hnil.
    assert (1 ≤ length lines) by (destruct lines; [done|simpl; lia]).
    destruct (bool_decide (length lines < 5)) eqn:H5; simpl.
    + destruct (bool_decide (0 < length queue)) eqn:Hq.
      * destruct (heapq.heappop PriorityLine_lt queue) as [[x q1]|]; [|done].
        intros Hrun Hlen. apply IH in Hrun as (Hle & Hend & Hone);
          rewrite ?length_app in *; simpl in *; [|lia].
        split_and!; [lia|lia|done|done].
      * apply bool_decide_eq_false in Hq. intros [= <- <-] Hlen.
        split_and!; [lia|lia| |lia]. right. destruct queue; [done|].
        simpl in Hq. lia.
    + apply bool_decide_eq_false in H5. intros [= <- <-] Hlen. lia.
Qed.

Lemma _write_lines_batch s lines s' :
  _write_lines s = Some (lines, s') →
  1 ≤ length lines ≤ 5 ∧ (length lines = 5 ∨ _write_queue s' = []).
Proof.
  unfold _write_lines.
  destruct (_write_lines_loop 5 [] (_write_queue s)) as [[out q']|] eqn:Hrun;
    [|done].
  simpl. intros [= <- <-].
  apply _write_lines_loop_exit in Hrun as (Hle & Hend & Hone); [|done].
  simpl. split; [lia|done].
Qed.

Lemma _write_lines_empty s : _write_queue s = [] → _write_lines s = None.
Proof. intros Hq. unfold _write_lines. by rewrite Hq. Qed.

Lemma write_loop_spec cycles s :
  heap_ordered priority (_write_queue s) →
  length (_write_queue s) ≤ cycles →
  ∃ s', write_loop cycles s
        = (line <$> heapq.popall PriorityLine_lt
                      (length (_write_queue s)) (_write_queue s), s')
    ∧ _write_queue s' = []
    ∧ _writer s' = _writer s
        ++ (line <$> heapq.popall PriorityLine_lt
                       (length (_write_queue s)) (_write_queue s)).
Proof.
  revert s. induction cycles as [|cycles IH]; intros s Hq Hlen.
  { destruct (_write_queue s) eqn:E; simpl in Hlen; [|lia].
    exists s. simpl. rewrite E. simpl. by rewrite app_nil_r. }
  cbn [write_loop].
  destruct (_write_queue s) as [|x q] eqn:E.
  { rewrite _write_lines_empty by done. exists s. simpl.
    by rewrite app_nil_r. }
  rewrite <- E in *.
  destruct (_write_lines_loop_spec 5 [] (_write_queue s) Hq)
    as (popped & q' & Hrun & Hq' & Hall & Hlenq & Hpopped).
  { right. by rewrite E. }
  assert (popped ≠ []) as Hne by (apply Hpopped; [lia|done]).
  unfold _write_lines. rewrite Hrun. simpl.
  match goal with
  | |- context [write_loop _ ?s1] =>
      destruct (IH s1) as (s' & Hloop & Hempty & Hw)
  end.
  { done. }
  { simpl. destruct popped; [done|]. simpl in Hlenq. lia. }
  rewrite Hloop. simpl. exists s'.
  rewrite Hall, fmap_app. split_and!; [done|done|].
  rewrite Hw. simpl. by rewrite app_assoc.
Qed.

(** C6, as the code has it.  The lines enqueued on an empty write queue
    and then drained by the write loop come out, all of them, in an
    order of non-decreasing priority; nothing is said about the order
    of lines of equal priority. *)
Theorem write_queue_drains_by_priority (calls : list (Line * Z))
    (cycles : nat) (s : Server) :
  _write_queue s = [] → length calls ≤ cycles →
  ∃ s1 out s2,
    enqueue_all calls s = Return tt s1
    ∧ write_loop cycles s1 = (out, s2)
    ∧ drained_by_priority calls out
    ∧ _write_queue s2 = []
    ∧ _writer s2 = _writer s ++ out.
Proof.
  intros Hempty Hcycles.
  destruct (enqueue_all_spec calls s) as (s1 & Hrun & Hord & Hperm & Hw).
  { rewrite Hempty. by intros j x y _ Hx. }
  rewrite Hempty in Hperm. simpl in Hperm.
  destruct (write_loop_spec cycles s1 Hord) as (s2 & Hloop & Hq2 & Hw2).
  { apply Permutation_length in Hperm. rewrite Hperm, length_fmap. done. }
  destruct (popall_sorted _ _ PriorityLine_lt_priority _ Hord) as [Hp Hs].
  eexists s1, _, s2. split_and!; [done|done| |done|by rewrite Hw2, Hw].
  eexists. split_and!; [|apply StronglySorted_Sorted, Hs|done].
  by rewrite Hp.
Qed.
End write_queue.

Section sasl.
Context `{Interface, Matching, Ircv3}.
Open Scope coro_scope.

Lemma wait_for_await {A} response (g : Line → Coro A) s :
  bind_step (wait_for response s) (λ future, bind (await future) g)
  = Await (register response s) (length (futures s)) (λ line s', g line s').
Proof.
  unfold wait_for. cbn [bind_step].
  unfold bind at 1, await. cbn [futures register set_wait_for set_futures].
  by rewrite list_lookup_middle.
Qed.

Lemma _common_for_Some ours server_mechs mech :
  _common_for ours server_mechs = Some mech ↔
  ∃ i, ours !! i = Some mech ∧ mech ∈ server_mechs
    ∧ ∀ j m, j < i → ours !! j = Some m → m ∉ server_mechs.
Proof.
  induction ours as [|our ours IH]; simpl.
  { split; [done|]. intros (i & Hi & _). by rewrite lookup_nil in Hi. }
  case_bool_decide as Hin.
  - split.
    + intros [= <-]. exists 0. split_and!; [done|done|intros; lia].
    + intros ([|i] & Hi & Hm & Hfirst); simplify_eq/=; [done|].
      destruct (Hfirst 0 our); [lia|done|done].
  - rewrite IH. split.
    + intros (i & Hi & Hm & Hfirst). exists (S i). split_and!; [done|done|].
      intros [|j] m Hj Hlook; simplify_eq/=; [done|].
      eapply Hfirst; [|done]. lia.
    + intros ([|i] & Hi & Hm & Hfirst); simplify_eq/=; [done|].
      exists i. split_and!; [done|done|].
      intros j m Hj Hlook. apply (Hfirst (S j)); [lia|done].
Qed.

Lemma _common_for_None ours server_mechs :
  _common_for ours server_mechs = None ↔ ∀ m, m ∈ ours → m ∉ server_mechs.
Proof.
  induction ours as [|our ours IH]; simpl.
  { split; [|done]. by intros _ m Hm%elem_of_nil. }
  case_bool_decide as Hin.
  - split; [done|]. intros Hall. destruct (Hall our); [by left|done].
  - rewrite IH. split.
    + intros Hall m [->|Hm]%elem_of_cons; auto.
    + intros Hall m Hm. apply Hall. by right.
Qed.

Ltac plain_exchange_tac :=
  intros pl ps Hpcmd Hp0; cbn beta; coro_run;
  repeat (case_decide; [congruence|]; coro_run);
  case_decide; [|done]; coro_run; unfold index; rewrite Hp0; coro_run;
  rewrite bool_decide_eq_true_2 by done;
  rewrite decide_True by done; coro_run;
  rewrite wait_for_await; eexists; split; [reflexivity|];
  intros pl2 ps4 Hpcmd2; cbn beta; by case_decide.

Ltac userpass_replies_tac :=
  split_and!;
  [ intros rl rs Hcmd; cbn beta; by case_decide
  | intros rl rs rv rm Hcmd Hp1 Hcommon; cbn beta;
    case_decide; [congruence|]; coro_run;
    case_decide; [|done]; coro_run; unfold index; rewrite Hp1; coro_run;
    unfold _common; rewrite Hcommon; coro_run;
    rewrite wait_for_await; eexists; split; [reflexivity|];
    intros ->; plain_exchange_tac
  | intros rl rs rv Hcmd Hp1 Hcommon; cbn beta;
    case_decide; [congruence|]; coro_run;
    case_decide; [|done]; coro_run; unfold index; rewrite Hp1; coro_run;
    unfold _common; by rewrite Hcommon
  | intros ->; plain_exchange_tac ].

Lemma sasl_userpass_attempt username password s mech :
  selected s mech →
  ∃ k, sasl_userpass username password s
       = Await (authenticating mech AUTHENTICATE_reply s) (length (futures s)) k
    ∧ userpass_replies username password mech k.
Proof.
  unfold selected. intros Hsel.
  destruct (available_caps s !! "sasl") as [[v|]|] eqn:Hv; [| |done].
  - unfold sasl_userpass. coro_run. rewrite Hv. coro_run.
    unfold _common. rewrite Hsel. coro_run.
    rewrite wait_for_await. eexists. split; [reflexivity|].
    userpass_replies_tac.
  - unfold sasl_userpass. coro_run. rewrite Hv. coro_run.
    unfold index. rewrite Hsel. coro_run.
    rewrite wait_for_await. eexists. split; [reflexivity|].
    userpass_replies_tac.
Qed.

Lemma sasl_userpass_no_attempt username password s :
  (available_caps s !! "sasl" = None →
     sasl_userpass username password s = Raise (KeyError "sasl") s)
  ∧ (∀ v, available_caps s !! "sasl" = Some (Some v) →
       _common_for SASL_USERPASS_MECHANISMS (Py.split "," v) = None →
       sasl_userpass username password s
       = Raise (SASLUnkownMechanismError (Py.split "," v)) s).
Proof.
  split.
  - intros Hv. unfold sasl_userpass. coro_run. by rewrite Hv.
  - intros v Hv Hcommon. unfold sasl_userpass. coro_run. rewrite Hv.
    coro_run. unfold _common. by rewrite Hcommon.
Qed.

Lemma sasl_external_attempt s :
  ∃ k, sasl_external s
       = Await (authenticating "EXTERNAL" AUTHENTICATE_reply s)
           (length (futures s)) k
    ∧ external_replies k.
Proof.
  unfold sasl_external. coro_run. rewrite wait_for_await.
  eexists. split; [reflexivity|]. split_and!.
  - intros l s2 Hcmd. cbn beta. by case_decide.
  - intros l s2 v Hcmd Hp1. cbn beta.
    case_decide; [congruence|]. case_decide; [|done].
    coro_run. unfold index. rewrite Hp1. by coro_run.
  - intros l s2 Hcmd Hp0. cbn beta.
    do 2 (case_decide; [congruence|]). coro_run.
    case_decide; [|done]. coro_run. unfold index. rewrite Hp0. coro_run.
    rewrite bool_decide_eq_true_2 by done. coro_run.
    rewrite wait_for_await. eexists. split; [reflexivity|].
    intros l2 s4 Hcmd2. cbn beta. by case_decide.
Qed.

Lemma selected_first_common s v mech :
  available_caps s !! "sasl" = Some (Some v) →
  selected s mech ↔ first_common (Py.split "," v) mech.
Proof.
  intros Hv. unfold selected, first_common. rewrite Hv.
  apply _common_for_Some.
Qed.

(** C3.  When the server lists its mechanisms in the value of the sasl
    capability, [sasl_userpass] splits the value on commas and starts
    with the first mechanism of SCRAM-SHA-512, SCRAM-SHA-256,
    SCRAM-SHA-1, PLAIN that is in the list: it enqueues AUTHENTICATE
    with that mechanism and waits for the reply.  When no mechanism is
    in the list it raises the unknown-mechanism error with the server's
    list.  For PLAIN,SCRAM-SHA-256 the choice is SCRAM-SHA-256; for
    OAUTHBEARER there is none. *)
Theorem sasl_userpass_selects_first_common (username password v : string)
    (s : Server) :
  available_caps s !! "sasl" = Some (Some v) →
  (∀ mech, first_common (Py.split "," v) mech →
     ∃ k, sasl_userpass username password s
          = Await (authenticating mech AUTHENTICATE_reply s)
              (length (futures s)) k)
  ∧ ((∀ m, m ∈ SASL_USERPASS_MECHANISMS → m ∉ Py.split "," v) →
     sasl_userpass username password s
     = Raise (SASLUnkownMechanismError (Py.split "," v)) s)
  ∧ (v = "PLAIN,SCRAM-SHA-256" →
     first_common (Py.split "," v) "SCRAM-SHA-256")
  ∧ (v = "OAUTHBEARER" →
     ∀ m, m ∈ SASL_USERPASS_MECHANISMS → m ∉ Py.split "," v).
Proof.
  intros Hv. split_and!.
  - intros mech Hmech. apply (selected_first_common s v mech Hv) in Hmech.
    destruct (sasl_userpass_attempt username password s mech Hmech)
      as (k & Hrun & _).
    by exists k.
  - intros Hnone. apply _common_for_None in Hnone.
    by apply sasl_userpass_no_attempt.
  - intros ->. by apply _common_for_Some.
  - intros ->. by apply _common_for_None.
Qed.

(** C4, as the code has it.  When the sasl capability has no value,
    [sasl_userpass] starts with the head of the priority order, which
    is SCRAM-SHA-512: it enqueues AUTHENTICATE SCRAM-SHA-512 and waits.
    The negotiation is left to a 908 reply: on 908 it starts again with
    the first common mechanism of the list in the reply, or raises the
    unknown-mechanism error when there is none. *)
Theorem sasl_userpass_without_value_tries_head (username password : string)
    (s : Server) :
  available_caps s !! "sasl" = Some None →
  SASL_USERPASS_MECHANISMS !! 0 = Some "SCRAM-SHA-512"
  ∧ ∃ k, sasl_userpass username password s
         = Await (authenticating "SCRAM-SHA-512" AUTHENTICATE_reply s)
             (length (futures s)) k
      ∧ userpass_replies username password "SCRAM-SHA-512" k.
Proof.
  intros Hv. split; [done|].
  apply sasl_userpass_attempt. unfold selected. by rewrite Hv.
Qed.

(** C5.  Once [sasl_userpass] has PLAIN as its mechanism, at the start
    or after a 908 reply, a reply AUTHENTICATE + makes it enqueue
    AUTHENTICATE with the base64 of username NUL username NUL password
    and wait for 903 or 904; the reply 903 then gives SUCCESS. *)
Theorem sasl_userpass_plain_exchange (username password mech : string)
    (s : Server) :
  selected s mech →
  plain_payload username password
    = username +:+ Py.NUL +:+ username +:+ Py.NUL +:+ password
  ∧ ∃ k, sasl_userpass username password s
         = Await (authenticating mech AUTHENTICATE_reply s)
             (length (futures s)) k
      ∧ (mech = "PLAIN" → plain_exchange username password k)
      ∧ (∀ l s2 v,
           irctokens.command l = "908" →
           irctokens.params l !! 1 = Some v →
           first_common (Py.split "," v) "PLAIN" →
           ∃ k', k l s2 = Await
               (authenticating "PLAIN"
                  (Response "AUTHENTICATE" [ParamAny] []) s2)
               (length (futures s2)) k'
             ∧ plain_exchange username password k').
Proof.
  intros Hsel. split; [done|].
  destruct (sasl_userpass_attempt username password s mech Hsel)
    as (k & Hrun & _ & H908 & _ & Hplain).
  exists k. split_and!; [done|done|].
  intros l s2 v Hcmd Hp1 Hcommon. apply _common_for_Some in Hcommon.
  destruct (H908 l s2 v "PLAIN" Hcmd Hp1 Hcommon) as (k' & Hk' & Hplain').
  exists k'. split; [done|]. by apply Hplain'.
Qed.

(** C8.  When the reply to the first AUTHENTICATE of [sasl_external] or
    of [sasl_userpass], whatever mechanism it started with, is the
    numeric 907, the result is ALREADY. *)
Theorem sasl_907_is_already (l : Line) :
  irctokens.command l = "907" →
  (∀ s, ∃ k, sasl_external s
             = Await (authenticating "EXTERNAL" AUTHENTICATE_reply s)
                 (length (futures s)) k
          ∧ ∀ s2, k l s2 = Return ALREADY s2)
  ∧ (∀ username password mech s,
       selected s mech →
       ∃ k, sasl_userpass username password s
            = Await (authenticating mech AUTHENTICATE_reply s)
                (length (futures s)) k
         ∧ ∀ s2, k l s2 = Return ALREADY s2).
Proof.
  intros Hcmd. split.
  - intros s. destruct (sasl_external_attempt s) as (k & Hrun & H907 & _).
    exists k. split; [done|]. intros s2. by apply H907.
  - intros username password mech s Hsel.
    destruct (sasl_userpass_attempt username password s mech Hsel)
      as (k & Hrun & H907 & _).
    exists k. split; [done|]. intros s2. by apply H907.
Qed.
End sasl.

Section cap.
Context `{Interface, Matching, Ircv3}.
Open Scope coro_scope.

(** C7.  At the end of CAP LS: when none of the built-in and queued
    capabilities, and of sasl if SASL is configured, is advertised,
    nothing is enqueued (no CAP REQ, no CAP END) and the requested list
    stays as it is; otherwise the advertised names become the requested
    list and one line, CAP REQ with the names joined by spaces, is
    enqueued.  The capability queue is emptied either way. *)
Theorem cap_ls_done_requests_advertised (s : Server) :
  ∃ s', _cap_ls_done s = Return tt s'
    ∧ _cap_queue s' = ∅
    ∧ (advertised s = [] →
         _write_queue s' = _write_queue s
         ∧ _requested_caps s' = _requested_caps s)
    ∧ (advertised s ≠ [] →
         _write_queue s'
           = heapq.heappush PriorityLine_lt (_write_queue s)
               (CAP_REQ (advertised s))
         ∧ _write_queue s' ≡ₚ CAP_REQ (advertised s) :: _write_queue s
         ∧ _requested_caps s' = advertised s).
Proof.
  unfold _cap_ls_done. coro_run.
  cbn [available_caps params _cap_queue set_cap_queue].
  assert (Py.filter_bool
            ((λ c, available c (map_to_list (available_caps s)).*1) <$>
             (if ConnectionParams.sasl (params s) is Some _
              then (CAPS ++ elements (_cap_queue s)) ++ [CAP_SASL]
              else CAPS ++ elements (_cap_queue s))) = advertised s) as ->.
  { unfold advertised, request_list.
    destruct (ConnectionParams.sasl (params s)); [done|].
    by rewrite app_nil_r. }
  destruct (advertised s) as [|a l] eqn:Hadv.
  - eexists. split; [reflexivity|]. by split_and!.
  - coro_run. eexists. split; [reflexivity|]. split_and!; [done|done|].
    intros _. split_and!; [done| |done]. apply heappush_perm.
Qed.

Lemma remove_sublist x l : Py.remove x l `sublist_of` l.
Proof.
  induction l as [|y l IH]; simpl; [done|].
  case_decide; [by apply sublist_cons|by apply sublist_skip].
Qed.


Lemma remove_tokens_sublist tokens requested :
  remove_tokens tokens requested `sublist_of` requested.
Proof.
  revert requested. induction tokens as [|t tokens IH]; intros r; [done|].
  unfold remove_tokens in *. simpl. etrans; [apply IH|].
  case_decide; [apply remove_sublist|done].
Qed.


Lemma _cap_ack_tokens_loop tokens s :
  ∃ s', for_each tokens (λ cap,
          requested <- get _requested_caps ;;
          if decide (cap ∈ requested)
          then modify (λ s, set_requested_caps
                              (Py.remove cap (_requested_caps s)) s)
          else ret tt) s = Return tt s'
    ∧ _requested_caps s' = remove_tokens tokens (_requested_caps s)
    ∧ _write_queue s' = _write_queue s
    ∧ params s' = params s ∧ agreed_caps s' = agreed_caps s.
Proof.
  revert s. induction tokens as [|t tokens IH]; intros s.
  { by exists s. }
  cbn [for_each]. coro_run.
  destruct (decide (t ∈ _requested_caps s)) as [Hin|Hin].
  - coro_run.
    destruct (IH (set_requested_caps (Py.remove t (_requested_caps s)) s))
      as (s' & Hrun & Hreq & Hq & Hp & Ha).
    exists s'. rewrite Hrun. split_and!; try done.
    rewrite Hreq. unfold remove_tokens. simpl. by rewrite decide_True.
  - coro_run. destruct (IH s) as (s' & Hrun & Hreq & Hq & Hp & Ha).
    exists s'. rewrite Hrun. split_and!; try done.
    rewrite Hreq. unfold remove_tokens. simpl. by rewrite decide_False.
Qed.

Lemma _cap_ack_tokens_spec emit s :
  ∃ s', _cap_ack_tokens emit s = Return tt s'
    ∧ _requested_caps s'
      = remove_tokens (tokens_of emit) (_requested_caps s)
    ∧ _write_queue s'
      = (if _requested_caps s' is []
         then heapq.heappush PriorityLine_lt (_write_queue s) CAP_END
         else _write_queue s)
    ∧ params s' = params s ∧ agreed_caps s' = agreed_caps s.
Proof.
  unfold _cap_ack_tokens. coro_head.
  destruct (_cap_ack_tokens_loop (tokens_of emit) s)
    as (s1 & Hrun & Hreq & Hq & Hp & Ha).
  unfold tokens_of in Hrun. rewrite Hrun. coro_run.
  destruct (_requested_caps s1) eqn:Hr1.
  - coro_run. eexists. split; [reflexivity|]. simpl.
    rewrite Hr1, Hq. by split_and!.
  - eexists. split; [reflexivity|]. rewrite Hr1. by split_and!.
Qed.

Lemma _cap_ack_no_handoff emit s :
  no_sasl_handoff s → _cap_ack emit s = _cap_ack_tokens emit s.
Proof.
  intros [Hnone|Hagreed]; unfold _cap_ack, _cap_ack_sasl; coro_run.
  - rewrite Hnone. by coro_run.
  - rewrite Hagreed.
    destruct (ConnectionParams.sasl (params s)); by coro_run.
Qed.



Lemma _cap_ack_handoff emit s cfg :
  ConnectionParams.sasl (params s) = Some cfg →
  cap_agreed CAP_SASL s = true →
  SASLParams.mechanism cfg = "USERPASS"
  ∨ SASLParams.mechanism cfg = "EXTERNAL" →
  _cap_ack emit s
  = bind_step (bind_step (sasl_attempt cfg s) (λ _, ret tt))
      (λ _, _cap_ack_tokens emit).
Proof.
  intros Hsasl Hagreed Hmech.
  unfold _cap_ack, _cap_ack_sasl, sasl_attempt. coro_run.
  rewrite Hsasl, Hagreed.
  destruct Hmech as [Hmech|Hmech]; rewrite Hmech; by coro_run.
Qed.


Lemma no_sasl_handoff_no_attempt s : no_sasl_handoff s → ¬ sasl_handoff s.
Proof.
  intros [Hnone|Hagreed] (cfg & Hsasl & Hag & _); congruence.
Qed.




(** C10.  When SASL is configured with USERPASS or EXTERNAL and the
    sasl capability is agreed, every [_cap_ack] first runs the whole
    SASL attempt and only then removes tokens: it enqueues AUTHENTICATE
    and waits for the reply with the requested list untouched, and goes
    on with the tokens of the message when the attempt has returned,
    as on the reply 907.  This holds for every message and every
    state: each ACK or NAK that finds sasl agreed starts a new
    attempt. *)
Theorem cap_ack_authenticates_first (emit : Emit) (s : Server)
    (cfg : SASLParams.t) :
  ConnectionParams.sasl (params s) = Some cfg →
  cap_agreed CAP_SASL s = true →
  SASLParams.mechanism cfg = "USERPASS"
  ∨ SASLParams.mechanism cfg = "EXTERNAL" →
  _cap_ack emit s
  = (_ <- (_ <- sasl_attempt cfg ;; ret tt) ;; _cap_ack_tokens emit)%coro s
  ∧ (SASLParams.mechanism cfg = "EXTERNAL" →
       ∃ k, _cap_ack emit s
            = Await (authenticating "EXTERNAL" AUTHENTICATE_reply s)
                (length (futures s)) k
         ∧ ∀ l, irctokens.command l = "907" → then_tokens emit l k)
  ∧ (SASLParams.mechanism cfg = "USERPASS" →
       ∀ mech, selected s mech →
         ∃ k, _cap_ack emit s
              = Await (authenticating mech AUTHENTICATE_reply s)
                  (length (futures s)) k
           ∧ ∀ l, irctokens.command l = "907" → then_tokens emit l k)
  ∧ (∀ arg, _requested_caps (authenticating arg AUTHENTICATE_reply s)
            = _requested_caps s).
Proof.
  intros Hsasl Hagreed Hmech.
  pose proof (_cap_ack_handoff emit s cfg Hsasl Hagreed Hmech) as Hrun.
  split_and!; [done| | |done].
  - intros Hext. rewrite Hrun. unfold sasl_attempt.
    rewrite decide_False by (by rewrite Hext).
    destruct (sasl_external_attempt s) as (k & -> & H907 & _).
    cbn [bind_step]. eexists. split; [reflexivity|].
    intros l Hcmd s2. cbn beta. by rewrite (H907 l s2 Hcmd).
  - intros Huser mech Hsel. rewrite Hrun. unfold sasl_attempt.
    rewrite decide_True by done.
    destruct (sasl_userpass_attempt
                (Py.or_empty (SASLParams.username cfg))
                (Py.or_empty (SASLParams.password cfg)) s mech Hsel)
      as (k & -> & H907 & _).
    cbn [bind_step]. eexists. split; [reflexivity|].
    intros l Hcmd s2. cbn beta. by rewrite (H907 l s2 Hcmd).
Qed.
End cap.

(** ** Concrete cases *)

Section cases.
Local Existing Instances spec_match spec_ircv3 spec_interface.

Lemma two_waits_wf : server_wf two_waits.
Proof. apply (bool_decide_unpack _). vm_compute. exact I. Defined.

(** Two waits match a 903 line: the first gets it, the second stays. *)
Example two_waits_first_wins :
  ∃ s', _on_read_line line_903 two_waits = Return tt s'
    ∧ _wait_for s' = [(Response "903" [ParamAny] [], 1)]
    ∧ futures s' = [Result line_903; Pending].
Proof. eexists. split; [vm_compute; reflexivity|]. by split. Qed.

Lemma on_read_line_resolves_first_witness :
  server_wf two_waits
  ∧ ∃ s', _on_read_line line_903 two_waits = Return tt s'
      ∧ server_wf s'
      ∧ resolves_first line_903 two_waits s'
      ∧ later_waits_pending line_903 two_waits s'
      ∧ results_kept two_waits s'.
Proof.
  split; [exact two_waits_wf|].
  apply (on_read_line_resolves_first line_903 two_waits). exact two_waits_wf.
Defined.

Lemma teardown_fails_pending_waits_witness :
  server_wf two_waits
  ∧ (∃ s', teardown two_waits = Return tt s' ∧ fails_pending two_waits s')
  ∧ NoDup (_wait_for two_waits).*2
  ∧ ∀ m f lines,
      (m, f) ∈ _wait_for two_waits →
      Forall (λ l, match_ m l = false) lines →
      still_pending m f lines two_waits.
Proof.
  split; [exact two_waits_wf|].
  apply (teardown_fails_pending_waits two_waits). exact two_waits_wf.
Defined.

(** Teardown with two waits pending. *)
Example teardown_two_waits :
  ∃ s', teardown two_waits = Return tt s'
    ∧ _wait_for s' = []
    ∧ futures s' = [Exception ConnectionClosed; Exception ConnectionClosed].
Proof. eexists. split; [vm_compute; reflexivity|]. by split. Qed.

(** A PING is answered, and resolves no wait. *)
Example ping_pong :
  ∃ s', _on_read_line line_ping two_waits = Return tt s'
    ∧ queued s' = [build "PONG" ["irc.example.org"]]
    ∧ futures s' = [Pending; Pending].
Proof. eexists. split; [vm_compute; reflexivity|]. by split. Qed.

(** C6, counterexample.  Four lines enqueued at one priority leave the
    write queue as the first, the third, the second, the fourth. *)
Lemma write_queue_reorders_equal_priority :
  ∃ s1 s2,
    enqueue_all four_calls (sample_server ∅ [] None) = Return tt s1
    ∧ write_loop 1 s1 = (privmsg <$> ["1"; "3"; "2"; "4"], s2)
    ∧ four_calls.*2 = replicate 4 SendPriority_DEFAULT
    ∧ privmsg <$> ["1"; "3"; "2"; "4"] ≠ four_calls.*1.
Proof.
  eexists _, _. split_and!; [vm_compute; reflexivity..|done].
Qed.

Lemma write_queue_drains_by_priority_witness :
  _write_queue (sample_server ∅ [] None) = [] ∧ length mixed_calls ≤ 3
  ∧ ∃ s1 out s2,
      enqueue_all mixed_calls (sample_server ∅ [] None) = Return tt s1
      ∧ write_loop 3 s1 = (out, s2)
      ∧ drained_by_priority mixed_calls out
      ∧ _write_queue s2 = []
      ∧ _writer s2 = _writer (sample_server ∅ [] None) ++ out.
Proof.
  split; [reflexivity|]. split; [simpl; lia|].
  apply (write_queue_drains_by_priority mixed_calls 3 (sample_server ∅ [] None));
    [reflexivity|simpl; lia].
Defined.

Example mixed_calls_drained :
  (λ r, (write_loop 3 r.2).1)
    <$> returned (enqueue_all mixed_calls (sample_server ∅ [] None))
  = Some [build "PONG" ["x"]; privmsg "mid"; privmsg "low"].
Proof. vm_compute. reflexivity. Qed.


Lemma server_requested_no_handoff requested :
  no_sasl_handoff (server_requested requested).
Proof. by left. Defined.




(** With SASL EXTERNAL agreed, the ACK of sasl is suspended on the
    attempt: sasl is still requested and AUTHENTICATE EXTERNAL is the
    only line enqueued. *)
Example cap_ack_held_by_external :
  ∃ k, for_each [ACK ["sasl"]; NAK ["b"]] _cap_ack server_sasl_requested
       = Await (authenticating "EXTERNAL" AUTHENTICATE_reply
                  server_sasl_requested) 0 k
    ∧ _requested_caps (authenticating "EXTERNAL" AUTHENTICATE_reply
                         server_sasl_requested) = ["sasl"]
    ∧ queued (authenticating "EXTERNAL" AUTHENTICATE_reply
                server_sasl_requested)
      = [build "AUTHENTICATE" ["EXTERNAL"]].
Proof.
  eexists. split_and!; [vm_compute; reflexivity|reflexivity|].
  vm_compute. reflexivity.
Qed.

(** Queued [a] and [b], advertised [a]: the request is [CAP REQ a];
    the ACK of [a] empties the requested list and sends one CAP END. *)
Example cap_negotiation_a_b :
  ∃ s1 s2,
    _cap_ls_done server_a_b = Return tt s1
    ∧ queued s1 = [build "CAP" ["REQ"; "a"]]
    ∧ _requested_caps s1 = ["a"]
    ∧ _cap_ack (ACK ["a"]) s1 = Return tt s2
    ∧ _requested_caps s2 = []
    ∧ queued s2 = [build "CAP" ["REQ"; "a"]; build "CAP" ["END"]].
Proof.
  eexists _, _. split_and!; [vm_compute; reflexivity|done|done|
                             vm_compute; reflexivity|done|done].
Qed.

(** Nothing advertised: nothing is sent. *)
Example cap_ls_done_nothing_advertised :
  ∃ s', _cap_ls_done (sample_server ∅ [] (Some userpass_cfg)) = Return tt s'
    ∧ queued s' = [] ∧ _requested_caps s' = [].
Proof. eexists. split; [vm_compute; reflexivity|]. by split. Qed.

Lemma sasl_userpass_selects_first_common_witness :
  available_caps server_scram !! "sasl" = Some (Some "PLAIN,SCRAM-SHA-256")
  ∧ (∀ mech, first_common (Py.split "," "PLAIN,SCRAM-SHA-256") mech →
       ∃ k, sasl_userpass "alice" "secret" server_scram
            = Await (authenticating mech AUTHENTICATE_reply server_scram)
                (length (futures server_scram)) k)
  ∧ ((∀ m, m ∈ SASL_USERPASS_MECHANISMS →
           m ∉ Py.split "," "PLAIN,SCRAM-SHA-256") →
       sasl_userpass "alice" "secret" server_scram
       = Raise (SASLUnkownMechanismError
                  (Py.split "," "PLAIN,SCRAM-SHA-256")) server_scram)
  ∧ ("PLAIN,SCRAM-SHA-256" = "PLAIN,SCRAM-SHA-256" →
       first_common (Py.split "," "PLAIN,SCRAM-SHA-256") "SCRAM-SHA-256")
  ∧ ("PLAIN,SCRAM-SHA-256" = "OAUTHBEARER" →
       ∀ m, m ∈ SASL_USERPASS_MECHANISMS →
         m ∉ Py.split "," "PLAIN,SCRAM-SHA-256").
Proof.
  split; [vm_compute; reflexivity|].
  apply (sasl_userpass_selects_first_common "alice" "secret"
           "PLAIN,SCRAM-SHA-256" server_scram).
  vm_compute. reflexivity.
Defined.

(** [sasl=PLAIN,SCRAM-SHA-256]: AUTHENTICATE SCRAM-SHA-256 is sent. *)
Example sasl_userpass_picks_scram_256 :
  ∃ s' f k, sasl_userpass "alice" "secret" server_scram = Await s' f k
    ∧ queued s' = [build "AUTHENTICATE" ["SCRAM-SHA-256"]].
Proof. eexists _, _, _. split; [vm_compute; reflexivity|done]. Qed.

(** [sasl=OAUTHBEARER]: the unknown-mechanism error. *)
Example sasl_userpass_oauthbearer :
  sasl_userpass "alice" "secret" server_oauth
  = Raise (SASLUnkownMechanismError ["OAUTHBEARER"]) server_oauth.
Proof. vm_compute. reflexivity. Qed.

(** C4, counterexample.  With [sasl] offered without a value the first
    attempt is AUTHENTICATE SCRAM-SHA-512, not AUTHENTICATE PLAIN. *)
Lemma sasl_userpass_without_value_not_plain :
  ∃ s' f k, sasl_userpass "alice" "secret" server_v31 = Await s' f k
    ∧ queued s' = [build "AUTHENTICATE" ["SCRAM-SHA-512"]]
    ∧ queued s' ≠ [build "AUTHENTICATE" ["PLAIN"]].
Proof. eexists _, _, _. split; [vm_compute; reflexivity|done]. Qed.

Lemma sasl_userpass_without_value_tries_head_witness :
  available_caps server_v31 !! "sasl" = Some None
  ∧ SASL_USERPASS_MECHANISMS !! 0 = Some "SCRAM-SHA-512"
  ∧ ∃ k, sasl_userpass "alice" "secret" server_v31
         = Await (authenticating "SCRAM-SHA-512" AUTHENTICATE_reply server_v31)
             (length (futures server_v31)) k
      ∧ userpass_replies "alice" "secret" "SCRAM-SHA-512" k.
Proof.
  split; [vm_compute; reflexivity|].
  apply (sasl_userpass_without_value_tries_head "alice" "secret" server_v31).
  vm_compute. reflexivity.
Defined.

(** Without a value, a 908 reply listing PLAIN leads to PLAIN. *)
Example sasl_userpass_908_then_plain :
  match read_loop [build "908" ["robot"; "PLAIN,EXTERNAL"; "are available"];
                   line_plus; line_903]
          (sasl_userpass "alice" "secret" server_v31) with
  | Return r s' =>
      r = SUCCESS
      ∧ queued s' = build "AUTHENTICATE"
                      <$> [["SCRAM-SHA-512"]; ["PLAIN"];
                           ["YWxpY2UAYWxpY2UAc2VjcmV0"]]
  | _ => False
  end.
Proof. vm_compute. by split. Qed.

Lemma server_plain_selected : selected server_plain "PLAIN".
Proof. vm_compute. reflexivity. Defined.

Lemma sasl_userpass_plain_exchange_witness :
  selected server_plain "PLAIN"
  ∧ plain_payload "alice" "secret"
    = "alice" +:+ Py.NUL +:+ "alice" +:+ Py.NUL +:+ "secret"
  ∧ ∃ k, sasl_userpass "alice" "secret" server_plain
         = Await (authenticating "PLAIN" AUTHENTICATE_reply server_plain)
             (length (futures server_plain)) k
      ∧ ("PLAIN" = "PLAIN" → plain_exchange "alice" "secret" k)
      ∧ (∀ l s2 v,
           irctokens.command l = "908" →
           irctokens.params l !! 1 = Some v →
           first_common (Py.split "," v) "PLAIN" →
           ∃ k', k l s2 = Await
               (authenticating "PLAIN"
                  (Response "AUTHENTICATE" [ParamAny] []) s2)
               (length (futures s2)) k'
             ∧ plain_exchange "alice" "secret" k').
Proof.
  split; [exact server_plain_selected|].
  apply (sasl_userpass_plain_exchange "alice" "secret" "PLAIN" server_plain).
  exact server_plain_selected.
Defined.

(** alice and secret: the payload, its bytes and its base64. *)
Example plain_payload_alice :
  Py.encode_utf8 (plain_payload "alice" "secret")
  = Py.encode_utf8 "alice" ++ ["000"%byte] ++ Py.encode_utf8 "alice"
      ++ ["000"%byte] ++ Py.encode_utf8 "secret"
  ∧ b64 (plain_payload "alice" "secret") = "YWxpY2UAYWxpY2UAc2VjcmV0".
Proof. split; reflexivity. Qed.

(** The replies AUTHENTICATE + and 903 to PLAIN for alice. *)
Example sasl_userpass_alice_success :
  match read_loop [line_plus; line_903]
          (sasl_userpass "alice" "secret" server_plain) with
  | Return r s' =>
      r = SUCCESS
      ∧ queued s' = [build "AUTHENTICATE" ["PLAIN"];
                     build "AUTHENTICATE" ["YWxpY2UAYWxpY2UAc2VjcmV0"]]
  | _ => False
  end.
Proof. vm_compute. by split. Qed.

Lemma sasl_907_is_already_witness :
  irctokens.command line_907 = "907"
  ∧ (∀ s, ∃ k, sasl_external s
               = Await (authenticating "EXTERNAL" AUTHENTICATE_reply s)
                   (length (futures s)) k
            ∧ ∀ s2, k line_907 s2 = Return ALREADY s2)
  ∧ (∀ username password mech s,
       selected s mech →
       ∃ k, sasl_userpass username password s
            = Await (authenticating mech AUTHENTICATE_reply s)
                (length (futures s)) k
         ∧ ∀ s2, k line_907 s2 = Return ALREADY s2).
Proof.
  split; [reflexivity|]. apply (sasl_907_is_already line_907). reflexivity.
Defined.

(** The reply 907 to either entry point. *)
Example sasl_907_both :
  (∃ s', read_loop [line_907] (sasl_external server_external)
         = Return ALREADY s')
  ∧ (∃ s', read_loop [line_907] (sasl_userpass "alice" "secret" server_scram)
           = Return ALREADY s').
Proof. split; eexists; vm_compute; reflexivity. Qed.

Lemma cap_ack_authenticates_first_witness :
  ConnectionParams.sasl (params server_external) = Some external_cfg
  ∧ cap_agreed CAP_SASL server_external = true
  ∧ (SASLParams.mechanism external_cfg = "USERPASS"
     ∨ SASLParams.mechanism external_cfg = "EXTERNAL")
  ∧ _cap_ack (ACK ["sasl"]) server_external
    = (_ <- (_ <- sasl_attempt external_cfg ;; ret tt) ;;
       _cap_ack_tokens (ACK ["sasl"]))%coro server_external
  ∧ (SASLParams.mechanism external_cfg = "EXTERNAL" →
       ∃ k, _cap_ack (ACK ["sasl"]) server_external
            = Await (authenticating "EXTERNAL" AUTHENTICATE_reply
                       server_external)
                (length (futures server_external)) k
         ∧ ∀ l, irctokens.command l = "907" →
             then_tokens (ACK ["sasl"]) l k)
  ∧ (SASLParams.mechanism external_cfg = "USERPASS" →
       ∀ mech, selected server_external mech →
         ∃ k, _cap_ack (ACK ["sasl"]) server_external
              = Await (authenticating mech AUTHENTICATE_reply
                         server_external)
                  (length (futures server_external)) k
           ∧ ∀ l, irctokens.command l = "907" →
               then_tokens (ACK ["sasl"]) l k)
  ∧ (∀ arg, _requested_caps
              (authenticating arg AUTHENTICATE_reply server_external)
            = _requested_caps server_external).
Proof.
  split; [reflexivity|]. split; [vm_compute; reflexivity|].
  split; [by right|].
  apply (cap_ack_authenticates_first (ACK ["sasl"]) server_external
           external_cfg); [reflexivity|vm_compute; reflexivity|by right].
Defined.

(** Two ACK messages while sasl is agreed: two AUTHENTICATE EXTERNAL. *)
Example cap_ack_twice_authenticates_twice :
  match read_loop [line_907; line_907]
          (for_each [ACK ["sasl"]; ACK ["away-notify"]] _cap_ack
             (set_requested_caps ["sasl"; "away-notify"] server_external)) with
  | Return _ s' =>
      queued s' = [build "AUTHENTICATE" ["EXTERNAL"];
                   build "AUTHENTICATE" ["EXTERNAL"];
                   build "CAP" ["END"]]
      ∧ _requested_caps s' = []
  | _ => False
  end.
Proof. vm_compute. by split. Qed.
End cases.

(** ** Further properties: the write queue *)

Section small_heaps.
Context {A : Type} (lt : A → A → bool).

(** An item that is not below its parent stays at the tail. *)
Lemma heappush_tail h item :
  (∀ y, y ∈ h → lt item y = false) →
  heapq.heappush lt h item = h ++ [item].
Proof.
  intros Hge. unfold heapq.heappush, heapq._siftdown.
  rewrite list_lookup_middle by done.
  assert (<[length h := item]> (h ++ [item]) = h ++ [item]) as Hid.
  { apply list_insert_id. by apply list_lookup_middle. }
  destruct (length h) as [|n] eqn:Hlen; cbn [heapq._siftdown_loop]; [done|].
  cbv zeta. rewrite decide_True by lia.
  assert ((S n - 1) / 2 < length h) as Hp.
  { rewrite Hlen. apply Nat.Div0.div_lt_upper_bound; lia. }
  destruct (lookup_lt_is_Some_2 h _ Hp) as [parent Hparent].
  rewrite (lookup_app_l_Some _ _ _ _ Hparent).
  rewrite Hge by (by eapply list_elem_of_lookup_2). done.
Qed.

(** Up to three items none of which is below another leave from the
    head. *)
Lemma heappop_head_small h :
  (∀ x y, x ∈ h → y ∈ h → lt x y = false) → length h ≤ 3 →
  heapq.heappop lt h = match h with [] => None | x :: t => Some (x, t) end.
Proof.
  intros Hge Hlen.
  destruct h as [|a [|b [|c [|d h]]]]; simpl in Hlen; try lia; try done;
    cbn;
    repeat first
      [ rewrite decide_True by lia
      | rewrite decide_False by lia
      | rewrite Hge by (apply list_elem_of_In; simpl; tauto)
      | progress cbn ];
    done.
Qed.
End small_heaps.

Section write_queue_more.
Context `{Interface, Matching, Ircv3}.
Open Scope coro_scope.

Lemma same_priority_not_lt p (q : list PriorityLine) x y :
  Forall (λ z, priority z = p) q → x ∈ q → y ∈ q →
  PriorityLine_lt x y = false.
Proof.
  rewrite Forall_forall. intros Hq Hx Hy. unfold PriorityLine_lt.
  rewrite (Hq x Hx), (Hq y Hy). apply Z.ltb_irrefl.
Qed.

(** Lines put at one priority sit in the heap in the order of the
    calls. *)
Lemma put_same_priority p l (s : Server) :
  Forall (λ z, priority z = p) (_write_queue s) →
  _write_queue (put l p s) = _write_queue s ++ [mkPriorityLine p l].
Proof.
  intros Hq. unfold put. cbn [_write_queue set_write_queue].
  apply heappush_tail. intros y Hy. rewrite Forall_forall in Hq.
  unfold PriorityLine_lt. cbn [priority]. rewrite (Hq y Hy).
  apply Z.ltb_irrefl.
Qed.

Lemma heappop_same_priority (q : list PriorityLine) p :
  Forall (λ z, priority z = p) q → length q ≤ 3 →
  heapq.heappop PriorityLine_lt q
  = match q with [] => None | x :: t => Some (x, t) end.
Proof.
  intros Hq Hlen. apply heappop_head_small; [|done].
  intros x y. by apply (same_priority_not_lt p).
Qed.

Lemma _write_lines_loop_small (q : list PriorityLine) p :
  Forall (λ z, priority z = p) q → 1 ≤ length q ≤ 3 →
  _write_lines_loop 5 [] q = Some (line <$> q, []).
Proof.
  intros Hq Hlen.
  destruct q as [|a [|b [|c [|d q]]]]; simpl in Hlen; try lia;
    repeat match goal with
           | Hq : Forall _ (_ :: _) |- _ => apply Forall_cons in Hq as [? Hq]
           end;
    repeat first
      [ rewrite (heappop_same_priority _ p)
          by (first [repeat (constructor; [assumption|]); constructor
                    |simpl; lia])
      | rewrite bool_decide_eq_true_2 by (first [done|simpl; lia])
      | rewrite bool_decide_eq_false_2 by (first [done|simpl; lia])
      | progress cbn [_write_lines_loop orb andb app line fmap list_fmap] ];
    done.
Qed.

Lemma enqueue_all_same_priority (ls : list Line) p (s : Server) :
  Forall (λ z, priority z = p) (_write_queue s) →
  ∃ s1, enqueue_all ((λ l, (l, p)) <$> ls) s = Return tt s1
    ∧ _write_queue s1 = _write_queue s ++ (mkPriorityLine p <$> ls)
    ∧ _writer s1 = _writer s.
Proof.
  revert s. induction ls as [|l ls IH]; intros s Hq.
  { exists s. by rewrite app_nil_r. }
  unfold enqueue_all. cbn [fmap list_fmap for_each]. coro_run. cbn [fst snd].
  destruct (IH (put l p s)) as (s1 & Hrun & Hqueue & Hw).
  { rewrite put_same_priority by done. apply Forall_app. split; [done|].
    by repeat constructor. }
  exists s1. split; [exact Hrun|]. split; [|done].
  rewrite Hqueue, put_same_priority by done. by rewrite <- app_assoc.
Qed.

Lemma _write_lines_small (s : Server) p :
  Forall (λ z, priority z = p) (_write_queue s) →
  1 ≤ length (_write_queue s) ≤ 3 →
  _write_lines s
  = Some (line <$> _write_queue s,
          set_writer (_writer s ++ (line <$> _write_queue s))
            (set_write_queue [] s)).
Proof.
  intros Hq Hlen. unfold _write_lines.
  by rewrite (_write_lines_loop_small _ p).
Qed.

(** X1.  On an empty write queue, up to three lines enqueued at one
    priority are written by the next cycle of the write loop in the
    order of the calls, and the queue is empty again. *)
Theorem small_burst_keeps_order (ls : list Line) (p : Z) (s : Server) :
  _write_queue s = [] → 1 ≤ length ls ≤ 3 →
  ∃ s1 s2,
    enqueue_all ((λ l, (l, p)) <$> ls) s = Return tt s1
    ∧ _write_lines s1 = Some (ls, s2)
    ∧ _write_queue s2 = []
    ∧ _writer s2 = _writer s ++ ls.
Proof.
  intros Hempty Hlen.
  destruct (enqueue_all_same_priority ls p s) as (s1 & Hrun & Hq & Hw).
  { rewrite Hempty. constructor. }
  rewrite Hempty in Hq. simpl in Hq.
  assert (line <$> _write_queue s1 = ls) as Hlines.
  { rewrite Hq, <- list_fmap_compose. apply list_fmap_id. }
  eexists s1, _. split; [done|].
  rewrite (_write_lines_small s1 p), Hlines.
  - split_and!; [done|done|]. simpl. by rewrite Hw.
  - rewrite Hq. apply Forall_fmap, Forall_true. done.
  - by rewrite Hq, length_fmap.
Qed.

Lemma or_name_sent (name : option string) (nickname : string) :
  Py.or_ name nickname = name_sent nickname name.
Proof. by destruct name as [[|a v]|]. Qed.

(** X2.  [connect] on an empty write queue enqueues the handshake, and
    the next cycle of the write loop writes CAP LS, NICK and USER in
    this order, the user and real names being the nickname where they
    are not given or are empty; the parameters are kept. *)
Theorem connect_writes_handshake (p : ConnectionParams.t) (s : Server) :
  _write_queue s = [] →
  ∃ s1 s2,
    connect p s = Return tt s1
    ∧ params s1 = p
    ∧ _write_lines s1 = Some (handshake p, s2)
    ∧ _write_queue s2 = []
    ∧ _writer s2 = _writer s ++ handshake p.
Proof.
  intros Hempty. unfold connect. coro_run. rewrite !or_name_sent.
  eexists _, _. split; [reflexivity|]. split; [done|].
  match goal with
  | |- _write_lines
         (set_params p (put ?l3 ?d (put ?l2 ?d (put ?l1 ?d s)))) = _ ∧ _ =>
      assert (_write_queue (put l1 d s) = [mkPriorityLine d l1]) as Hq1;
      [|assert (_write_queue (put l2 d (put l1 d s))
                = [mkPriorityLine d l1; mkPriorityLine d l2]) as Hq2;
        [|assert (_write_queue (put l3 d (put l2 d (put l1 d s)))
                  = mkPriorityLine d <$> handshake p) as Hq3]]
  end.
  { rewrite put_same_priority; rewrite Hempty; [done|constructor]. }
  { rewrite put_same_priority; rewrite Hq1; [done|by repeat constructor]. }
  { rewrite put_same_priority; rewrite Hq2; [done|by repeat constructor]. }
  match goal with
  | |- _write_lines ?s1 = _ ∧ _ =>
      assert (_write_queue s1
              = mkPriorityLine SendPriority_DEFAULT <$> handshake p) as Hq
        by exact Hq3
  end.
  rewrite (_write_lines_small _ SendPriority_DEFAULT).
  - rewrite Hq, <- list_fmap_compose, list_fmap_id.
    split_and!; [reflexivity|done|done].
  - rewrite Hq. apply Forall_fmap, Forall_true. done.
  - rewrite Hq. simpl. lia.
Qed.
End write_queue_more.

Section write_queue_invariant.
Context `{Interface, Matching, Ircv3}.

Lemma heap_ordered_nil : heap_ordered priority [].
Proof. intros j x y _ Hx. by rewrite lookup_nil in Hx. Defined.

(** X3.  [send] keeps the write queue a heap: the line is added, no
    queued line is lost or doubled, and the head of the queue, the next
    line to leave, has the lowest priority value.  Nothing else of the
    server changes. *)
Theorem send_keeps_heap (l : Line) (p : Z) (s : Server) :
  heap_ordered priority (_write_queue s) →
  ∃ s', send l p s = Return tt s'
    ∧ heap_ordered priority (_write_queue s')
    ∧ _write_queue s' ≡ₚ mkPriorityLine p l :: _write_queue s
    ∧ (∃ head, _write_queue s' !! 0 = Some head
         ∧ ∀ y, y ∈ _write_queue s' → (priority head ≤ priority y)%Z)
    ∧ _wait_for s' = _wait_for s ∧ futures s' = futures s
    ∧ _requested_caps s' = _requested_caps s ∧ _writer s' = _writer s.
Proof.
  intros Hq. exists (put l p s). split; [done|].
  assert (heap_ordered priority (_write_queue (put l p s))) as Hq'.
  { by apply (heappush_ordered _ _ PriorityLine_lt_priority). }
  assert (_write_queue (put l p s) ≡ₚ mkPriorityLine p l :: _write_queue s)
    as Hperm by apply heappush_perm.
  split_and!; try done.
  destruct (_write_queue (put l p s)) as [|head q] eqn:E.
  { by apply Permutation_nil_cons in Hperm. }
  exists head. split; [done|].
  by apply (heap_ordered_root priority).
Qed.

(** X4.  One cycle of [_write_lines] on a heap-ordered queue waits
    exactly when the queue is empty: it waits on an empty queue, and on
    no other.  On a queue that is not empty it returns: it takes
    [min(5, qsize)] lines, so at least one, in non-decreasing priority,
    none of them above a line that stays queued, appends them to what
    is written and returns them; the rest stays a heap. *)
Theorem write_lines_takes_lowest (s : Server) :
  heap_ordered priority (_write_queue s) →
  (_write_lines s = None ↔ _write_queue s = [])
  ∧ (_write_queue s ≠ [] →
     ∃ popped s',
       _write_lines s = Some (line <$> popped, s')
       ∧ popped ≠ []
       ∧ length popped = length (_write_queue s) `min` 5
       ∧ _write_queue s ≡ₚ popped ++ _write_queue s'
       ∧ heap_ordered priority (_write_queue s')
       ∧ Sorted Z.le (priority <$> popped)
       ∧ (∀ x y, x ∈ popped → y ∈ _write_queue s' →
            (priority x ≤ priority y)%Z)
       ∧ _writer s' = _writer s ++ (line <$> popped)).
Proof.
  intros Hq.
  assert (Hsome : _write_queue s ≠ [] →
            ∃ popped s',
              _write_lines s = Some (line <$> popped, s')
              ∧ popped ≠ []
              ∧ length popped = length (_write_queue s) `min` 5
              ∧ _write_queue s ≡ₚ popped ++ _write_queue s'
              ∧ heap_ordered priority (_write_queue s')
              ∧ Sorted Z.le (priority <$> popped)
              ∧ (∀ x y, x ∈ popped → y ∈ _write_queue s' →
                   (priority x ≤ priority y)%Z)
              ∧ _writer s' = _writer s ++ (line <$> popped)).
  { intros Hne.
    assert (0 < length (_write_queue s)) as Hpos.
    { destruct (_write_queue s); [done|simpl; lia]. }
    destruct (_write_lines_loop_spec 5 [] (_write_queue s) Hq)
      as (popped & q' & Hrun & Hq' & Hall & Hlen & _).
    { by right. }
    pose proof (_write_lines_loop_exit _ _ _ _ _ Hrun eq_refl)
      as (Hle5 & Hend & Hone).
    cbn [app] in Hle5, Hend, Hone. rewrite length_fmap in Hle5, Hend, Hone.
    destruct (popall_sorted _ _ PriorityLine_lt_priority _ Hq) as [Hp Hs].
    destruct (popall_sorted _ _ PriorityLine_lt_priority _ Hq') as [Hp' _].
    rewrite Hall, fmap_app in Hs.
    apply StronglySorted_app in Hs as (Hle & Hs1 & _).
    assert (length popped = length (_write_queue s) `min` 5) as Hmin.
    { destruct Hend as [?|Hnil]; [lia|]. rewrite Hnil in Hlen.
      simpl in *. lia. }
    unfold _write_lines. rewrite Hrun. cbn [mbind option_bind app].
    eexists popped, _. split; [reflexivity|].
    cbn [_write_queue _writer set_writer set_write_queue].
    split_and!; [|done| |done| | |done].
    - intros ->. simpl in Hmin. lia.
    - by rewrite <- Hp, Hall, Hp'.
    - by apply StronglySorted_Sorted.
    - intros x y Hx Hy. apply Hle; apply list_elem_of_fmap_2; [done|].
      by rewrite Hp'. }
  split; [|exact Hsome]. split.
  - intros Hnone. destruct (_write_queue s) as [|x0 q0] eqn:E; [done|].
    destruct Hsome as (popped & s' & Hrun & _); [done|].
    by rewrite Hrun in Hnone.
  - apply _write_lines_empty.
Qed.
End write_queue_invariant.

(** ** Further properties: the wait registry *)

Section registry_more.
Context `{Interface, Matching, Ircv3}.
Open Scope coro_scope.

Lemma first_match_registered line entries i0 i f :
  first_match line i0 entries = Some (i, f) → f ∈ entries.*2.
Proof.
  intros (k & m & _ & Hk & _)%first_match_Some.
  apply list_elem_of_fmap. exists (m, f). split; [done|].
  by eapply list_elem_of_lookup_2.
Qed.

(** X5.  Every inbound line whose command is PING is answered: PONG
    with the parameters of the line is enqueued at the default
    priority, whether or not the line also resolved a wait.  A line
    with another command enqueues nothing.  The requested capabilities
    and the written lines are never touched. *)
Theorem on_read_line_answers_ping (line : Line) (s : Server) :
  server_wf s →
  ∃ s', _on_read_line line s = Return tt s'
    ∧ (irctokens.command line = "PING" →
         _write_queue s'
         = heapq.heappush PriorityLine_lt (_write_queue s) (PONG line))
    ∧ (irctokens.command line ≠ "PING" → _write_queue s' = _write_queue s)
    ∧ _requested_caps s' = _requested_caps s
    ∧ _writer s' = _writer s.
Proof.
  intros [_ Hpend]. rewrite Forall_forall in Hpend.
  unfold _on_read_line. coro_run.
  destruct (first_match line 0 (_wait_for s)) as [[i f]|] eqn:Hfm.
  - apply first_match_registered in Hfm. coro_run.
    unfold set_result. cbn [futures set_wait_for]. rewrite (Hpend f Hfm).
    coro_run.
    destruct (decide (irctokens.command line = "PING")); coro_run;
      eexists; (split; [reflexivity|]); by split_and!.
  - coro_run.
    destruct (decide (irctokens.command line = "PING")); coro_run;
      eexists; (split; [reflexivity|]); by split_and!.
Qed.

Lemma register_then_matching_line (response : BaseResponse) (line : Line)
    (s : Server) :
  server_wf s →
  (∀ m f, (m, f) ∈ _wait_for s → match_ m line = false) →
  match_ response line = true →
  ∃ s2,
    futures s !! length (futures s) = None
    ∧ futures (register response s) !! length (futures s) = Some Pending
    ∧ _on_read_line line (register response s) = Return tt s2
    ∧ futures s2 !! length (futures s) = Some (Result line)
    ∧ _wait_for s2 = _wait_for s
    ∧ server_wf s2.
Proof.
  intros Hwf Hnone Hmatch.
  destruct (wait_for_wf response s Hwf) as (_ & s1 & Hrun & Hwf1 & Hw1 & Hf1).
  destruct (_on_read_line_spec line s1 Hwf1) as (s2 & Hrun2 & Hwf2 & Hres).
  injection Hrun as <-. exists s2.
  split_and!; [ | |done| | |done].
  - by apply lookup_ge_None_2.
  - rewrite Hf1. by apply list_lookup_middle.
  - destruct Hres as [(i & m & f & (Hi & Hm & _) & _ & _ & Hfut & _)
                     |(Hno & _)].
    + rewrite Hw1 in Hi.
      destruct (decide (i < length (_wait_for s))) as [Hlt|Hge].
      { rewrite lookup_app_l in Hi by done.
        rewrite (Hnone m f) in Hm; [done|]. by eapply list_elem_of_lookup_2. }
      rewrite lookup_app_r in Hi by lia.
      destruct (i - length (_wait_for s)) as [|n]; [|done].
      injection Hi as <- <-. rewrite Hfut, Hf1.
      apply list_lookup_insert_eq. rewrite length_app. simpl. lia.
    + rewrite (Hno response (length (futures s))) in Hmatch; [done|].
      rewrite Hw1. apply elem_of_app. right. by left.
  - destruct Hres as [(i & m & f & (Hi & Hm & _) & Hdel & _)|(Hno & _)].
    + rewrite Hw1 in Hi.
      destruct (decide (i < length (_wait_for s))) as [Hlt|Hge].
      { rewrite lookup_app_l in Hi by done.
        rewrite (Hnone m f) in Hm; [done|]. by eapply list_elem_of_lookup_2. }
      assert (i = length (_wait_for s)) as ->.
      { apply lookup_lt_Some in Hi. rewrite length_app in Hi. simpl in Hi.
        lia. }
      rewrite Hdel, Hw1, (delete_middle _ []). apply app_nil_r.
    + rewrite (Hno response (length (futures s))) in Hmatch; [done|].
      rewrite Hw1. apply elem_of_app. right. by left.
Qed.

(** X6.  A wait registered on a server none of whose waits matches a
    line is resolved by that line when its own response matches: the
    future that [wait_for] returned is new, it gets the line, and the
    registry is as it was before the call. *)
Theorem wait_for_then_matching_line (response : BaseResponse) (line : Line)
    (s : Server) :
  server_wf s →
  (∀ m f, (m, f) ∈ _wait_for s → match_ m line = false) →
  match_ response line = true →
  ∃ future s1 s2,
    wait_for response s = Return future s1
    ∧ futures s !! future = None
    ∧ futures s1 !! future = Some Pending
    ∧ _on_read_line line s1 = Return tt s2
    ∧ futures s2 !! future = Some (Result line)
    ∧ _wait_for s2 = _wait_for s
    ∧ server_wf s2.
Proof.
  intros Hwf Hnone Hmatch.
  destruct (register_then_matching_line response line s Hwf Hnone Hmatch)
    as (s2 & Hnew & Hpend & Hrun & Hres & Hw & Hwf2).
  by exists (length (futures s)), (register response s), s2.
Qed.

End registry_more.

(** ** Further properties: the SASL exchanges *)

Section sasl_more.
Context `{Interface, Matching, Ircv3}.
Open Scope coro_scope.

Lemma sasl_external_other_replies (s : Server) :
  ∃ k, sasl_external s
       = Await (authenticating "EXTERNAL" AUTHENTICATE_reply s)
           (length (futures s)) k
    ∧ (∀ l s2, irctokens.command l ≠ "907" → irctokens.command l ≠ "908" →
         irctokens.command l ≠ "AUTHENTICATE" →
         k l s2 = Return FAILURE s2)
    ∧ (∀ l s2 p0, irctokens.command l = "AUTHENTICATE" →
         irctokens.params l !! 0 = Some p0 → p0 ≠ "+" →
         k l s2 = Return FAILURE s2)
    ∧ (∀ l s2, irctokens.command l = "AUTHENTICATE" →
         irctokens.params l !! 0 = Some "+" →
         ∃ k2, k l s2 = Await (authenticating "+" (Numerics ["903"; "904"]) s2)
                          (length (futures s2)) k2
           ∧ ∀ l2 s4, irctokens.command l2 ≠ "903" →
               k2 l2 s4 = Return FAILURE s4)
    ∧ (∀ l s2 v, irctokens.command l = "908" →
         irctokens.params l !! 1 = Some v →
         k l s2 = Raise (SASLUnkownMechanismError (Py.split "," v)) s2)
    ∧ (∀ l s2, irctokens.command l = "908" →
         irctokens.params l !! 1 = None →
         k l s2 = Raise IndexError s2)
    ∧ (∀ l s2, irctokens.command l = "AUTHENTICATE" →
         irctokens.params l = [] →
         k l s2 = Raise IndexError s2).
Proof.
  unfold sasl_external. coro_run. rewrite wait_for_await.
  eexists. split; [reflexivity|]. split_and!.
  - intros l s2 H907 H908 Hauth. cbn beta.
    do 2 (case_decide; [done|]). coro_run. case_decide; [done|]. by coro_run.
  - intros l s2 p0 Hcmd Hp0 Hne. cbn beta.
    do 2 (case_decide; [congruence|]). coro_run.
    case_decide; [|done]. coro_run. unfold index. rewrite Hp0. coro_run.
    by rewrite bool_decide_eq_false_2.
  - intros l s2 Hcmd Hp0. cbn beta.
    do 2 (case_decide; [congruence|]). coro_run.
    case_decide; [|done]. coro_run. unfold index. rewrite Hp0. coro_run.
    rewrite bool_decide_eq_true_2 by done. coro_run.
    rewrite wait_for_await. eexists. split; [reflexivity|].
    intros l2 s4 Hcmd2. cbn beta. by case_decide.
  - intros l s2 v Hcmd Hp1. cbn beta.
    case_decide; [congruence|]. case_decide; [|done].
    coro_run. unfold index. rewrite Hp1. by coro_run.
  - intros l s2 Hcmd Hp1. cbn beta.
    case_decide; [congruence|]. case_decide; [|done].
    coro_run. unfold index. by rewrite Hp1.
  - intros l s2 Hcmd Hp. cbn beta.
    do 2 (case_decide; [congruence|]). coro_run.
    case_decide; [|done]. coro_run. unfold index. by rewrite Hp.
Qed.

(** X7.  [sasl_external] gives FAILURE, and sends nothing more, when
    the first reply is neither 907, 908 nor AUTHENTICATE (as 904 is),
    or is AUTHENTICATE with another parameter than [+]; and after
    AUTHENTICATE + it sends AUTHENTICATE + and gives FAILURE on every
    reply but 903. *)
Theorem sasl_external_failure (s : Server) :
  ∃ k, sasl_external s
       = Await (authenticating "EXTERNAL" AUTHENTICATE_reply s)
           (length (futures s)) k
    ∧ (∀ l s2, irctokens.command l ≠ "907" → irctokens.command l ≠ "908" →
         irctokens.command l ≠ "AUTHENTICATE" →
         k l s2 = Return FAILURE s2)
    ∧ (∀ l s2 p0, irctokens.command l = "AUTHENTICATE" →
         irctokens.params l !! 0 = Some p0 → p0 ≠ "+" →
         k l s2 = Return FAILURE s2)
    ∧ (∀ l s2, irctokens.command l = "AUTHENTICATE" →
         irctokens.params l !! 0 = Some "+" →
         ∃ k2, k l s2 = Await (authenticating "+" (Numerics ["903"; "904"]) s2)
                          (length (futures s2)) k2
           ∧ ∀ l2 s4, irctokens.command l2 ≠ "903" →
               k2 l2 s4 = Return FAILURE s4).
Proof.
  destruct (sasl_external_other_replies s)
    as (k & Hrun & Hother & Hparam & Hplus & _).
  by exists k.
Qed.

(** X8.  [sasl_external] raises on a 908 reply: the unknown-mechanism
    error with the comma-split second parameter, or [IndexError] when
    the reply has no second parameter; and it raises [IndexError] on an
    AUTHENTICATE reply without parameters.  The server is left as it
    is. *)
Theorem sasl_external_raises (s : Server) :
  ∃ k, sasl_external s
       = Await (authenticating "EXTERNAL" AUTHENTICATE_reply s)
           (length (futures s)) k
    ∧ (∀ l s2 v, irctokens.command l = "908" →
         irctokens.params l !! 1 = Some v →
         k l s2 = Raise (SASLUnkownMechanismError (Py.split "," v)) s2)
    ∧ (∀ l s2, irctokens.command l = "908" →
         irctokens.params l !! 1 = None →
         k l s2 = Raise IndexError s2)
    ∧ (∀ l s2, irctokens.command l = "AUTHENTICATE" →
         irctokens.params l = [] →
         k l s2 = Raise IndexError s2).
Proof.
  destruct (sasl_external_other_replies s)
    as (k & Hrun & _ & _ & _ & H908 & Hshort & Hnone).
  by exists k.
Qed.

Ltac userpass_failures_tac :=
  split_and!;
  [ intros rl rs H907 H908 Hauth; cbn beta;
    case_decide; [done|]; coro_run; case_decide; [done|]; coro_run;
    case_decide; [done|]; by coro_run
  | intros rl rs rp0 Hcmd Hp0 Hne; cbn beta;
    case_decide; [congruence|]; coro_run;
    case_decide; [congruence|]; coro_run;
    case_decide; [|done]; coro_run; unfold index; rewrite Hp0; coro_run;
    by rewrite bool_decide_eq_false_2
  | intros rl rs Hcmd Hp; cbn beta;
    case_decide; [congruence|]; coro_run;
    case_decide; [congruence|]; coro_run;
    case_decide; [|done]; coro_run; unfold index; by rewrite Hp
  | intros rl rs Hcmd Hp1; cbn beta;
    case_decide; [congruence|]; coro_run;
    case_decide; [|done]; coro_run; unfold index; by rewrite Hp1
  | intros Hmech rl rs Hcmd Hp0; cbn beta;
    case_decide; [congruence|]; coro_run;
    case_decide; [congruence|]; coro_run;
    case_decide; [|done]; coro_run; unfold index; rewrite Hp0; coro_run;
    rewrite bool_decide_eq_true_2 by done;
    by rewrite decide_False by done
  | intros -> rl rs Hcmd Hp0; cbn beta;
    case_decide; [congruence|]; coro_run;
    case_decide; [congruence|]; coro_run;
    case_decide; [|done]; coro_run; unfold index; rewrite Hp0; coro_run;
    rewrite bool_decide_eq_true_2 by done;
    rewrite decide_True by done; coro_run;
    rewrite wait_for_await; eexists; split; [reflexivity|];
    intros rl2 rs4 Hcmd2; cbn beta; by case_decide
  | intros rl rs rv rm Hcmd Hp1 Hcommon Hmech; cbn beta;
    case_decide; [congruence|]; coro_run;
    case_decide; [|done]; coro_run; unfold index; rewrite Hp1; coro_run;
    unfold _common; rewrite Hcommon; coro_run;
    rewrite wait_for_await; eexists; split; [reflexivity|];
    intros pl ps Hpcmd Hpp0; cbn beta; coro_run;
    case_decide; [|done]; coro_run; rewrite Hpp0; coro_run;
    rewrite bool_decide_eq_true_2 by done;
    by rewrite decide_False by done ].

Lemma sasl_userpass_other_replies username password s mech :
  selected s mech →
  ∃ k, sasl_userpass username password s
       = Await (authenticating mech AUTHENTICATE_reply s) (length (futures s)) k
    ∧ (∀ l s2, irctokens.command l ≠ "907" → irctokens.command l ≠ "908" →
         irctokens.command l ≠ "AUTHENTICATE" →
         k l s2 = Return FAILURE s2)
    ∧ (∀ l s2 p0, irctokens.command l = "AUTHENTICATE" →
         irctokens.params l !! 0 = Some p0 → p0 ≠ "+" →
         k l s2 = Return FAILURE s2)
    ∧ (∀ l s2, irctokens.command l = "AUTHENTICATE" →
         irctokens.params l = [] → k l s2 = Raise IndexError s2)
    ∧ (∀ l s2, irctokens.command l = "908" →
         irctokens.params l !! 1 = None → k l s2 = Raise IndexError s2)
    ∧ (mech ≠ "PLAIN" → ∀ l s2,
         irctokens.command l = "AUTHENTICATE" →
         irctokens.params l !! 0 = Some "+" →
         k l s2 = Return FAILURE s2)
    ∧ (mech = "PLAIN" → ∀ l s2,
         irctokens.command l = "AUTHENTICATE" →
         irctokens.params l !! 0 = Some "+" →
         ∃ k2, k l s2 = Await
                 (authenticating (b64 (plain_payload username password))
                    (Numerics ["903"; "904"]) s2)
                 (length (futures s2)) k2
           ∧ ∀ l2 s4, irctokens.command l2 ≠ "903" →
               k2 l2 s4 = Return FAILURE s4)
    ∧ (∀ l s2 v m,
         irctokens.command l = "908" → irctokens.params l !! 1 = Some v →
         _common_for SASL_USERPASS_MECHANISMS (Py.split "," v) = Some m →
         m ≠ "PLAIN" →
         ∃ k', k l s2 = Await
                 (authenticating m (Response "AUTHENTICATE" [ParamAny] []) s2)
                 (length (futures s2)) k'
           ∧ ∀ l' s3, irctokens.command l' = "AUTHENTICATE" →
               irctokens.params l' !! 0 = Some "+" →
               k' l' s3 = Return FAILURE s3).
Proof.
  unfold selected. intros Hsel.
  destruct (available_caps s !! "sasl") as [[v|]|] eqn:Hv; [| |done].
  - unfold sasl_userpass. coro_run. rewrite Hv. coro_run.
    unfold _common. rewrite Hsel. coro_run.
    rewrite wait_for_await. eexists. split; [reflexivity|].
    userpass_failures_tac.
  - unfold sasl_userpass. coro_run. rewrite Hv. coro_run.
    unfold index. rewrite Hsel. coro_run.
    rewrite wait_for_await. eexists. split; [reflexivity|].
    userpass_failures_tac.
Qed.

(** X9.  With a SCRAM mechanism chosen, at the start or after a 908
    reply, [sasl_userpass] has no response to build: on AUTHENTICATE +
    it gives FAILURE and sends nothing. *)
Theorem sasl_userpass_scram_fails (username password mech : string)
    (s : Server) :
  selected s mech → mech ≠ "PLAIN" →
  ∃ k, sasl_userpass username password s
       = Await (authenticating mech AUTHENTICATE_reply s) (length (futures s)) k
    ∧ (∀ l s2, irctokens.command l = "AUTHENTICATE" →
         irctokens.params l !! 0 = Some "+" →
         k l s2 = Return FAILURE s2)
    ∧ (∀ l s2 v m,
         irctokens.command l = "908" → irctokens.params l !! 1 = Some v →
         first_common (Py.split "," v) m → m ≠ "PLAIN" →
         ∃ k', k l s2 = Await
                 (authenticating m (Response "AUTHENTICATE" [ParamAny] []) s2)
                 (length (futures s2)) k'
           ∧ ∀ l' s3, irctokens.command l' = "AUTHENTICATE" →
               irctokens.params l' !! 0 = Some "+" →
               k' l' s3 = Return FAILURE s3).
Proof.
  intros Hsel Hmech.
  destruct (sasl_userpass_other_replies username password s mech Hsel)
    as (k & Hrun & _ & _ & _ & _ & Hscram & _ & H908).
  exists k. split_and!; [done|by apply Hscram|].
  intros l s2 v m Hcmd Hp1 Hcommon Hm. apply _common_for_Some in Hcommon.
  by apply (H908 l s2 v m).
Qed.

(** X10.  [sasl_userpass] gives FAILURE, and sends nothing more, when
    the first reply is neither 907, 908 nor AUTHENTICATE (as 904 is),
    or is AUTHENTICATE with another parameter than [+]; and with PLAIN,
    after the payload is sent, on every reply but 903. *)
Theorem sasl_userpass_failure (username password mech : string)
    (s : Server) :
  selected s mech →
  ∃ k, sasl_userpass username password s
       = Await (authenticating mech AUTHENTICATE_reply s) (length (futures s)) k
    ∧ (∀ l s2, irctokens.command l ≠ "907" → irctokens.command l ≠ "908" →
         irctokens.command l ≠ "AUTHENTICATE" →
         k l s2 = Return FAILURE s2)
    ∧ (∀ l s2 p0, irctokens.command l = "AUTHENTICATE" →
         irctokens.params l !! 0 = Some p0 → p0 ≠ "+" →
         k l s2 = Return FAILURE s2)
    ∧ (mech = "PLAIN" → ∀ l s2,
         irctokens.command l = "AUTHENTICATE" →
         irctokens.params l !! 0 = Some "+" →
         ∃ k2, k l s2 = Await
                 (authenticating (b64 (plain_payload username password))
                    (Numerics ["903"; "904"]) s2)
                 (length (futures s2)) k2
           ∧ ∀ l2 s4, irctokens.command l2 ≠ "903" →
               k2 l2 s4 = Return FAILURE s4).
Proof.
  intros Hsel.
  destruct (sasl_userpass_other_replies username password s mech Hsel)
    as (k & Hrun & Hother & Hparam & _ & _ & _ & Hplain & _).
  exists k. by split_and!.
Qed.

(** X11.  [sasl_userpass] on a server that was never offered sasl (no
    sasl key among the available capabilities) raises [KeyError]; no
    line is enqueued and no wait registered. *)
Theorem sasl_userpass_missing_key (username password : string) (s : Server) :
  available_caps s !! "sasl" = None →
  sasl_userpass username password s = Raise (KeyError "sasl") s.
Proof. intros Hv. by apply sasl_userpass_no_attempt. Qed.

(** X12.  [sasl_userpass] raises [IndexError] on a 908 reply that has
    no second parameter and on an AUTHENTICATE reply without
    parameters; the server is left as it is. *)
Theorem sasl_userpass_index_errors (username password mech : string)
    (s : Server) :
  selected s mech →
  ∃ k, sasl_userpass username password s
       = Await (authenticating mech AUTHENTICATE_reply s) (length (futures s)) k
    ∧ (∀ l s2, irctokens.command l = "908" →
         irctokens.params l !! 1 = None → k l s2 = Raise IndexError s2)
    ∧ (∀ l s2, irctokens.command l = "AUTHENTICATE" →
         irctokens.params l = [] → k l s2 = Raise IndexError s2).
Proof.
  intros Hsel.
  destruct (sasl_userpass_other_replies username password s mech Hsel)
    as (k & Hrun & _ & _ & Hnoparam & H908 & _).
  exists k. by split_and!.
Qed.

(** X13.  The choice of [_common] depends on which mechanisms the
    server lists, not on their order or repetition: two lists with the
    same members give the same mechanism, or both the error; and a
    chosen mechanism is in both lists. *)
Theorem common_ignores_order (l1 l2 : list string) (s : Server) :
  (∀ m, m ∈ l1 ↔ m ∈ l2) →
  match _common l1 s, _common l2 s with
  | Return m1 s1, Return m2 s2 =>
      m1 = m2 ∧ s1 = s ∧ s2 = s
      ∧ m1 ∈ SASL_USERPASS_MECHANISMS ∧ m1 ∈ l1 ∧ m1 ∈ l2
  | Raise e1 s1, Raise e2 s2 =>
      e1 = SASLUnkownMechanismError l1 ∧ e2 = SASLUnkownMechanismError l2
      ∧ s1 = s ∧ s2 = s
  | _, _ => False
  end.
Proof.
  intros Hsame. unfold _common.
  assert (_common_for SASL_USERPASS_MECHANISMS l1
          = _common_for SASL_USERPASS_MECHANISMS l2) as Heq.
  { generalize SASL_USERPASS_MECHANISMS. intros ours.
    induction ours as [|our ours IH]; [done|]. simpl.
    rewrite IH. by rewrite (bool_decide_ext _ _ (Hsame our)). }
  rewrite <- Heq.
  destruct (_common_for SASL_USERPASS_MECHANISMS l1) as [m|] eqn:Hc; [|done].
  cbn [ret]. apply _common_for_Some in Hc as (i & Hi & Hm & _).
  split_and!; try done.
  - by eapply list_elem_of_lookup_2.
  - by apply Hsame.
Qed.
End sasl_more.

(** ** Further properties: capability negotiation *)

Section cap_more.
Context `{Interface, Matching, Ircv3}.
Open Scope coro_scope.

Lemma occurrences_cons x y l :
  occurrences x (y :: l)
  = (if decide (y = x) then 1 else 0) + occurrences x l.
Proof.
  unfold occurrences. rewrite filter_cons. by case_decide.
Qed.

Lemma occurrences_not_elem_of x l : x ∉ l → occurrences x l = 0.
Proof.
  induction l as [|y l IH]; [done|].
  intros [Hne Hl]%not_elem_of_cons. rewrite occurrences_cons, IH by done.
  by rewrite decide_False.
Qed.

Lemma occurrences_nil_iff l : l = [] ↔ ∀ x, occurrences x l = 0.
Proof.
  split; [by intros ->|]. destruct l as [|y l]; [done|].
  intros Hall. specialize (Hall y). rewrite occurrences_cons in Hall.
  by rewrite decide_True in Hall.
Qed.

Lemma occurrences_remove x t l :
  t ∈ l →
  occurrences x (Py.remove t l)
  = occurrences x l - (if decide (t = x) then 1 else 0).
Proof.
  induction l as [|y l IH]; [by intros ?%elem_of_nil|].
  intros Hin. simpl. rewrite occurrences_cons.
  destruct (decide (t = y)) as [->|Hty].
  - case_decide; lia.
  - apply elem_of_cons in Hin as [?|Hin]; [done|].
    rewrite occurrences_cons, IH by done.
    destruct (decide (t = x)) as [->|]; [|lia].
    rewrite decide_False by done. lia.
Qed.

Lemma remove_tokens_occurrences x tokens requested :
  occurrences x (remove_tokens tokens requested)
  = occurrences x requested - occurrences x tokens.
Proof.
  revert requested. induction tokens as [|t tokens IH]; intros r.
  { unfold remove_tokens. simpl. unfold occurrences at 3. simpl. lia. }
  unfold remove_tokens in *. simpl. rewrite IH, occurrences_cons.
  destruct (decide (t ∈ r)) as [Hin|Hin].
  - rewrite occurrences_remove by done. lia.
  - destruct (decide (t = x)) as [->|]; [|lia].
    rewrite occurrences_not_elem_of by done. lia.
Qed.

Lemma remove_tokens_none tokens requested :
  (∀ t, t ∈ tokens → t ∉ requested) →
  remove_tokens tokens requested = requested.
Proof.
  induction tokens as [|t tokens IH]; intros Hnone; [done|].
  unfold remove_tokens in *. simpl.
  rewrite decide_False by (apply Hnone; by left).
  apply IH. intros t' Ht'. apply Hnone. by right.
Qed.

Lemma _cap_ack_tokens_frame emit s :
  ∃ s', _cap_ack_tokens emit s = Return tt s' ∧ cap_frame s s'.
Proof.
  unfold _cap_ack_tokens. coro_head.
  assert (∀ tokens s0, ∃ s1,
            for_each tokens (λ cap,
              requested <- get _requested_caps ;;
              if decide (cap ∈ requested)
              then modify (λ s, set_requested_caps
                                  (Py.remove cap (_requested_caps s)) s)
              else ret tt) s0 = Return tt s1 ∧ cap_frame s0 s1) as Hloop.
  { induction tokens as [|t tokens IH]; intros s0.
    { exists s0. split; [done|]. by repeat split. }
    cbn [for_each]. coro_run.
    destruct (decide (t ∈ _requested_caps s0)); coro_run.
    - destruct (IH (set_requested_caps (Py.remove t (_requested_caps s0)) s0))
        as (s1 & -> & Hframe).
      exists s1. split; [done|]. exact Hframe.
    - destruct (IH s0) as (s1 & -> & Hframe). by exists s1. }
  destruct (Hloop (default [] (ircstates.tokens emit)) s) as (s1 & -> & Hframe).
  coro_run. destruct (_requested_caps s1); coro_run;
    eexists; (split; [reflexivity|]); exact Hframe.
Qed.

Lemma _cap_ack_unknown_mechanism emit s cfg :
  ConnectionParams.sasl (params s) = Some cfg →
  SASLParams.mechanism cfg ≠ "USERPASS" →
  SASLParams.mechanism cfg ≠ "EXTERNAL" →
  _cap_ack emit s = _cap_ack_tokens emit s.
Proof.
  intros Hsasl Huser Hext. unfold _cap_ack, _cap_ack_sasl. coro_run.
  rewrite Hsasl. destruct (cap_agreed CAP_SASL s); [|by coro_run].
  rewrite !decide_False by done. by coro_run.
Qed.

(** X14.  [_cap_ack] starts no SASL attempt when SASL is not
    configured, when the sasl capability is not agreed, or when the
    configured mechanism is neither USERPASS nor EXTERNAL: it goes
    straight to the tokens, returns without waiting or raising, and
    changes nothing but the requested capabilities and the write
    queue. *)
Theorem cap_ack_without_attempt (emit : Emit) (s : Server) :
  ConnectionParams.sasl (params s) = None
  ∨ cap_agreed CAP_SASL s = false
  ∨ (∃ cfg, ConnectionParams.sasl (params s) = Some cfg
       ∧ SASLParams.mechanism cfg ≠ "USERPASS"
       ∧ SASLParams.mechanism cfg ≠ "EXTERNAL") →
  ∃ s', _cap_ack emit s = Return tt s'
    ∧ _cap_ack_tokens emit s = Return tt s'
    ∧ cap_frame s s'.
Proof.
  intros Hcase.
  assert (_cap_ack emit s = _cap_ack_tokens emit s) as Heq.
  { destruct Hcase as [Hnone|[Hagreed|(cfg & Hsasl & Huser & Hext)]].
    - apply _cap_ack_no_handoff. by left.
    - apply _cap_ack_no_handoff. by right.
    - by apply (_cap_ack_unknown_mechanism emit s cfg). }
  destruct (_cap_ack_tokens_frame emit s) as (s' & Hrun & Hframe).
  exists s'. by rewrite Heq.
Qed.

(** X15.  Without SASL hand-off, a CAP ACK or NAK takes from the
    requested capabilities one occurrence for each occurrence of a
    token in the message, and keeps the order of the rest.  A message
    none of whose tokens is requested, or without tokens, changes
    nothing in the list.  CAP END is enqueued exactly when every
    requested capability occurs in the message at least as often as in
    the list. *)
Theorem cap_ack_removes_occurrences (emit : Emit) (s : Server) :
  no_sasl_handoff s →
  ∃ s', _cap_ack emit s = Return tt s'
    ∧ (∀ x, occurrences x (_requested_caps s')
            = occurrences x (_requested_caps s)
              - occurrences x (tokens_of emit))
    ∧ _requested_caps s' `sublist_of` _requested_caps s
    ∧ ((∀ t, t ∈ tokens_of emit → t ∉ _requested_caps s) →
         _requested_caps s' = _requested_caps s)
    ∧ ((∀ x, occurrences x (_requested_caps s)
             ≤ occurrences x (tokens_of emit)) →
         _write_queue s'
         = heapq.heappush PriorityLine_lt (_write_queue s) CAP_END)
    ∧ (¬ (∀ x, occurrences x (_requested_caps s)
               ≤ occurrences x (tokens_of emit)) →
         _write_queue s' = _write_queue s).
Proof.
  intros Hno. rewrite _cap_ack_no_handoff by done.
  destruct (_cap_ack_tokens_spec emit s) as (s' & Hrun & Hreq & Hq & _).
  exists s'. split; [done|].
  assert (_requested_caps s' = [] ↔
          ∀ x, occurrences x (_requested_caps s)
               ≤ occurrences x (tokens_of emit)) as Hempty.
  { rewrite occurrences_nil_iff, Hreq. split; intros Hall x;
      specialize (Hall x); rewrite remove_tokens_occurrences in *; lia. }
  split_and!.
  - intros x. by rewrite Hreq, remove_tokens_occurrences.
  - rewrite Hreq. apply remove_tokens_sublist.
  - intros Hnone. rewrite Hreq. by apply remove_tokens_none.
  - intros Hall. apply Hempty in Hall. by rewrite Hq, Hall.
  - intros Hnot. rewrite Hq.
    destruct (_requested_caps s') eqn:E; [|done].
    destruct Hnot. by apply Hempty.
Qed.

Lemma _cap_ls_done_run s :
  ∃ s', _cap_ls_done s = Return tt s'
    ∧ params s' = params s ∧ agreed_caps s' = agreed_caps s
    ∧ available_caps s' = available_caps s
    ∧ _cap_queue s' = ∅
    ∧ _writer s' = _writer s
    ∧ _write_queue s'
      = (if advertised s is []
         then _write_queue s
         else heapq.heappush PriorityLine_lt (_write_queue s)
                (CAP_REQ (advertised s)))
    ∧ _requested_caps s'
      = (if advertised s is [] then _requested_caps s else advertised s).
Proof.
  unfold _cap_ls_done. coro_run.
  cbn [available_caps params _cap_queue set_cap_queue].
  assert (Py.filter_bool
            ((λ c, available c (map_to_list (available_caps s)).*1) <$>
             (if ConnectionParams.sasl (params s) is Some _
              then (CAPS ++ elements (_cap_queue s)) ++ [CAP_SASL]
              else CAPS ++ elements (_cap_queue s))) = advertised s) as ->.
  { unfold advertised, request_list.
    destruct (ConnectionParams.sasl (params s)); [done|].
    by rewrite app_nil_r. }
  destruct (advertised s) as [|a l] eqn:Hadv.
  - eexists. split; [reflexivity|]. by split_and!.
  - coro_run. eexists. split; [reflexivity|]. by split_and!.
Qed.

Lemma elem_of_filter_bool t (os : list (option string)) :
  t ∈ Py.filter_bool os ↔ Some t ∈ os ∧ t ≠ "".
Proof.
  unfold Py.filter_bool. rewrite list_elem_of_omap. split.
  - intros (o & Ho & Ht). destruct o as [t'|]; simpl in Ht; [|done].
    destruct (String.eqb t' "") eqn:E; simpl in Ht; [done|].
    injection Ht as ->. split; [done|]. intros ->. by compute in E.
  - intros [Ho Hne]. exists (Some t). split; [done|]. simpl.
    destruct (String.eqb t "") eqn:E; [|done].
    by apply String.eqb_eq in E.
Qed.

Lemma elem_of_advertised t s :
  t ∈ advertised s ↔
  t ≠ "" ∧ ∃ c, c ∈ request_list s ∧ available c (offered s) = Some t.
Proof.
  unfold advertised. rewrite elem_of_filter_bool, list_elem_of_fmap.
  unfold offered. split.
  - intros [(c & Hav & Hc) Hne]. split; [done|]. by exists c.
  - intros (Hne & c & Hc & Hav). split; [|done]. by exists c.
Qed.

(** X16.  A capability that is queued and that the server offers under
    a non-empty name is requested when CAP LS completes: its name is in
    the requested list and in the one CAP REQ that is enqueued, and the
    capability queue is empty afterwards.  What is requested then is
    exactly the non-empty names offered for the built-in capabilities,
    the queued ones and, when SASL is configured, sasl. *)
Theorem queued_capability_is_requested (cap : Capability) (t : string)
    (s : Server) :
  available cap (offered s) = Some t → t ≠ "" →
  ∃ s1 s2,
    queue_capability cap s = Return tt s1
    ∧ _cap_ls_done s1 = Return tt s2
    ∧ t ∈ _requested_caps s2
    ∧ _write_queue s2
      = heapq.heappush PriorityLine_lt (_write_queue s)
          (CAP_REQ (_requested_caps s2))
    ∧ _cap_queue s2 = ∅
    ∧ ∀ t', t' ∈ _requested_caps s2 ↔
        t' ≠ "" ∧ ∃ c,
          (c ∈ CAPS ∨ c = cap ∨ c ∈ _cap_queue s
           ∨ (c = CAP_SASL ∧ ConnectionParams.sasl (params s) ≠ None))
          ∧ available c (offered s) = Some t'.
Proof.
  intros Hcap Ht.
  set (s1 := set_cap_queue ({[cap]} ∪ _cap_queue s) s).
  destruct (_cap_ls_done_run s1) as (s2 & Hrun & _ & _ & _ & Hcq & _ & Hq & Hreq).
  assert (∀ t', t' ∈ advertised s1 ↔
            t' ≠ "" ∧ ∃ c,
              (c ∈ CAPS ∨ c = cap ∨ c ∈ _cap_queue s
               ∨ (c = CAP_SASL ∧ ConnectionParams.sasl (params s) ≠ None))
              ∧ available c (offered s) = Some t') as Hadv.
  { intros t'. rewrite elem_of_advertised. unfold request_list, offered.
    cbn [s1 set_cap_queue _cap_queue params available_caps].
    split; intros (Hne & c & Hc & Hav); (split; [done|]); exists c;
      (split; [|done]).
    - rewrite !elem_of_app, elem_of_elements, elem_of_union,
        elem_of_singleton in Hc.
      destruct Hc as [[?|[?|?]]|Hs]; auto.
      destruct (ConnectionParams.sasl (params s)); [|by apply elem_of_nil in Hs].
      apply list_elem_of_singleton in Hs. auto.
    - rewrite !elem_of_app, elem_of_elements, elem_of_union,
        elem_of_singleton.
      destruct Hc as [?|[?|[?|[-> Hs]]]]; auto.
      right. destruct (ConnectionParams.sasl (params s)); [by left|done]. }
  assert (t ∈ advertised s1) as Hin.
  { apply Hadv. split; [done|]. exists cap. auto. }
  destruct (advertised s1) as [|a l] eqn:E; [by apply elem_of_nil in Hin|].
  exists s1, s2. rewrite Hreq.
  split_and!; [done|done|done|by rewrite Hq|done|done].
Qed.

Lemma occurrences_Permutation x l1 l2 :
  l1 ≡ₚ l2 → occurrences x l1 = occurrences x l2.
Proof. intros Hperm. unfold occurrences. by rewrite Hperm. Qed.

(** X17.  A whole negotiation without SASL, by way of [_on_read_emit]
    on an empty write queue: when CAP LS completes with something
    advertised the advertised names are requested; when the server
    then answers all of them in one ACK or NAK, in any order, the
    requested list is empty, and the next cycle of the write loop
    writes CAP REQ and then CAP END. *)
Theorem cap_negotiation_round_trip (line : Line) (ls reply : Emit)
    (s : Server) :
  ConnectionParams.sasl (params s) = None →
  _write_queue s = [] →
  advertised s ≠ [] →
  ircstates.command ls = Some "CAP" →
  ircstates.subcommand ls = Some "LS" →
  ircstates.finished ls = true →
  ircstates.command reply = Some "CAP" →
  ircstates.subcommand reply = Some "ACK"
  ∨ ircstates.subcommand reply = Some "NAK" →
  tokens_of reply ≡ₚ advertised s →
  ∃ s1 s2 s3,
    _on_read_emit line ls s = Return tt s1
    ∧ _requested_caps s1 = advertised s
    ∧ _on_read_emit line reply s1 = Return tt s2
    ∧ _requested_caps s2 = []
    ∧ _write_lines s2
      = Some ([build "CAP" ["REQ"; Py.join " " (advertised s)];
               build "CAP" ["END"]], s3)
    ∧ _write_queue s3 = [].
Proof.
  intros Hsasl Hempty Hadv Hcmd Hsub Hfin Hcmd' Hsub' Htokens.
  destruct (_cap_ls_done_run s)
    as (s1 & Hrun1 & Hp1 & _ & _ & _ & Hw1 & Hq1 & Hreq1).
  destruct (advertised s) as [|a l] eqn:E; [done|]. rewrite <- E in *.
  assert (no_sasl_handoff s1) as Hno by (left; by rewrite Hp1).
  destruct (_cap_ack_tokens_spec reply s1) as (s2 & Hrun2 & Hreq2 & Hq2 & _).
  assert (_requested_caps s2 = []) as Hnil.
  { apply occurrences_nil_iff. intros x.
    rewrite Hreq2, remove_tokens_occurrences, Hreq1.
    rewrite (occurrences_Permutation x _ _ Htokens). lia. }
  rewrite Hnil in Hq2.
  assert (_write_queue s2 = [CAP_REQ (advertised s); CAP_END]) as Hqueue.
  { rewrite Hq2, Hq1, Hempty.
    rewrite (heappush_tail _ []) by (by intros y ?%elem_of_nil).
    rewrite heappush_tail; [done|].
    intros y ->%list_elem_of_singleton. apply Z.ltb_irrefl. }
  exists s1, s2. eexists.
  split_and!.
  - unfold _on_read_emit. rewrite Hcmd, Hsub, Hfin. exact Hrun1.
  - done.
  - unfold _on_read_emit. rewrite Hcmd'.
    rewrite decide_True by done.
    destruct Hsub' as [-> | ->]; cbn [bool_decide andb];
      rewrite bool_decide_eq_false_2 by done; cbn [andb];
      (rewrite bool_decide_eq_true_2
         by (apply list_elem_of_In; simpl; tauto));
      by rewrite _cap_ack_no_handoff.
  - done.
  - rewrite (_write_lines_small s2 SendPriority_DEFAULT); rewrite Hqueue;
      [reflexivity|by repeat constructor|simpl; lia].
  - done.
Qed.
End cap_more.

(** ** Further properties: a SASL reply on its way through the registry *)

Section sasl_delivery.
Context `{Interface, Matching, Ircv3}.
Open Scope coro_scope.

Lemma authenticating_delivers arg response line (s : Server) :
  server_wf s →
  (∀ m f, (m, f) ∈ _wait_for s → match_ m line = false) →
  match_ response line = true →
  ∃ s2, _on_read_line line (authenticating arg response s) = Return tt s2
    ∧ futures s2 !! length (futures s) = Some (Result line)
    ∧ _wait_for s2 = _wait_for s
    ∧ server_wf s2.
Proof.
  intros Hwf Hnone Hmatch. unfold authenticating.
  destruct (register_then_matching_line response line
              (put (build "AUTHENTICATE" [arg]) SendPriority_DEFAULT s))
    as (s2 & _ & _ & Hrun & Hres & Hw & Hwf2); [exact Hwf|exact Hnone|done|].
  by exists s2.
Qed.

(** X18.  The first reply to a SASL attempt reaches the attempt.  On a
    server none of whose waits matches the line, a line that matches
    the response awaited after AUTHENTICATE, handed to [_on_read_line],
    resolves the future that [sasl_external] or [sasl_userpass] is
    suspended on, and leaves the registry as it was before the attempt;
    when the line is a 907 the attempt then gives ALREADY. *)
Theorem sasl_reply_delivered (line : Line) (s : Server) :
  server_wf s →
  (∀ m f, (m, f) ∈ _wait_for s → match_ m line = false) →
  match_ AUTHENTICATE_reply line = true →
  (∃ k s2,
     sasl_external s
     = Await (authenticating "EXTERNAL" AUTHENTICATE_reply s)
         (length (futures s)) k
     ∧ _on_read_line line (authenticating "EXTERNAL" AUTHENTICATE_reply s)
       = Return tt s2
     ∧ futures s2 !! length (futures s) = Some (Result line)
     ∧ _wait_for s2 = _wait_for s
     ∧ (irctokens.command line = "907" → k line s2 = Return ALREADY s2))
  ∧ (∀ username password mech, selected s mech →
     ∃ k s2,
       sasl_userpass username password s
       = Await (authenticating mech AUTHENTICATE_reply s)
           (length (futures s)) k
       ∧ _on_read_line line (authenticating mech AUTHENTICATE_reply s)
         = Return tt s2
       ∧ futures s2 !! length (futures s) = Some (Result line)
       ∧ _wait_for s2 = _wait_for s
       ∧ (irctokens.command line = "907" → k line s2 = Return ALREADY s2)).
Proof.
  intros Hwf Hnone Hmatch. split.
  - destruct (sasl_external_attempt s) as (k & Hrun & H907 & _).
    destruct (authenticating_delivers "EXTERNAL" AUTHENTICATE_reply line s)
      as (s2 & Hline & Hres & Hw & _); [done..|].
    exists k, s2. split_and!; try done. intros Hcmd. by apply H907.
  - intros username password mech Hsel.
    destruct (sasl_userpass_attempt username password s mech Hsel)
      as (k & Hrun & H907 & _).
    destruct (authenticating_delivers mech AUTHENTICATE_reply line s)
      as (s2 & Hline & Hres & Hw & _); [done..|].
    exists k, s2. split_and!; try done. intros Hcmd. by apply H907.
Qed.
End sasl_delivery.

(** ** Further properties: what [_cap_ack] makes of the SASL attempt *)

Section cap_sasl_outcome.
Context `{Interface, Matching, Ircv3}.
Open Scope coro_scope.

(** X19.  [_cap_ack] does not look at the result of the SASL attempt,
    and does not catch what it raises.  After a reply that makes the
    attempt give FAILURE (one that is neither 907, 908 nor
    AUTHENTICATE, as 904 is) it goes on with the tokens of the message
    as after a success.  When the attempt raises (a 908 reply to
    EXTERNAL; for USERPASS no mechanism in common, or no sasl key), the
    exception leaves [_cap_ack] with the server as the attempt left it:
    no token is removed and no CAP END enqueued. *)
Theorem cap_ack_after_attempt (emit : Emit) (s : Server)
    (cfg : SASLParams.t) :
  ConnectionParams.sasl (params s) = Some cfg →
  cap_agreed CAP_SASL s = true →
  (SASLParams.mechanism cfg = "EXTERNAL" →
     ∃ k, _cap_ack emit s
          = Await (authenticating "EXTERNAL" AUTHENTICATE_reply s)
              (length (futures s)) k
       ∧ (∀ l, irctokens.command l ≠ "907" → irctokens.command l ≠ "908" →
            irctokens.command l ≠ "AUTHENTICATE" → then_tokens emit l k)
       ∧ (∀ l s2 v, irctokens.command l = "908" →
            irctokens.params l !! 1 = Some v →
            k l s2 = Raise (SASLUnkownMechanismError (Py.split "," v)) s2))
  ∧ (SASLParams.mechanism cfg = "USERPASS" →
     (available_caps s !! "sasl" = None →
        _cap_ack emit s = Raise (KeyError "sasl") s)
     ∧ (∀ v, available_caps s !! "sasl" = Some (Some v) →
          (∀ m, m ∈ SASL_USERPASS_MECHANISMS → m ∉ Py.split "," v) →
          _cap_ack emit s
          = Raise (SASLUnkownMechanismError (Py.split "," v)) s)
     ∧ (∀ mech, selected s mech →
          ∃ k, _cap_ack emit s
               = Await (authenticating mech AUTHENTICATE_reply s)
                   (length (futures s)) k
            ∧ ∀ l, irctokens.command l ≠ "907" →
                irctokens.command l ≠ "908" →
                irctokens.command l ≠ "AUTHENTICATE" →
                then_tokens emit l k)).
Proof.
  intros Hsasl Hagreed. split.
  - intros Hext.
    rewrite (_cap_ack_handoff emit s cfg Hsasl Hagreed (or_intror Hext)).
    unfold sasl_attempt. rewrite decide_False by (by rewrite Hext).
    destruct (sasl_external_other_replies s)
      as (k & -> & Hother & _ & _ & H908 & _).
    cbn [bind_step]. eexists. split; [reflexivity|]. split.
    + intros l Hc1 Hc2 Hc3 s2. cbn beta.
      by rewrite (Hother l s2 Hc1 Hc2 Hc3).
    + intros l s2 v Hcmd Hp1. cbn beta. by rewrite (H908 l s2 v Hcmd Hp1).
  - intros Huser.
    rewrite (_cap_ack_handoff emit s cfg Hsasl Hagreed (or_introl Huser)).
    unfold sasl_attempt. rewrite decide_True by done.
    split_and!.
    + intros Hv.
      by rewrite (proj1 (sasl_userpass_no_attempt _ _ s) Hv).
    + intros v Hv Hnone. apply _common_for_None in Hnone.
      by rewrite (proj2 (sasl_userpass_no_attempt _ _ s) v Hv Hnone).
    + intros mech Hsel.
      destruct (sasl_userpass_other_replies
                  (Py.or_empty (SASLParams.username cfg))
                  (Py.or_empty (SASLParams.password cfg)) s mech Hsel)
        as (k & -> & Hother & _).
      cbn [bind_step]. eexists. split; [reflexivity|].
      intros l Hc1 Hc2 Hc3 s2. cbn beta.
      by rewrite (Hother l s2 Hc1 Hc2 Hc3).
Qed.
End cap_sasl_outcome.

(** ** Further properties: emits that are passed over *)

Section emit_dispatch.
Context `{Interface, Matching, Ircv3}.
Open Scope coro_scope.

Lemma _on_read_emit_ignored line emit (s : Server) :
  ignored emit → _on_read_emit line emit s = Return tt s.
Proof.
  unfold ignored, _on_read_emit. intros [Hcmd|[[Hsub Hfin]|Hsub]].
  - by rewrite decide_False.
  - case_decide; [|done]. rewrite Hfin, andb_false_r.
    rewrite bool_decide_eq_false_2; [done|].
    rewrite Hsub, !elem_of_cons, elem_of_nil.
    by intros [?|[?|?]].
  - case_decide; [|done].
    rewrite (bool_decide_eq_false_2 (ircstates.subcommand emit = Some "LS")).
    2:{ intros Heq. apply Hsub. rewrite Heq. by left. }
    cbn [andb]. rewrite bool_decide_eq_false_2; [done|].
    intros Hin. apply Hsub. by right.
Qed.

(** X20.  [_on_read_emit] acts on the CAP LS that ends the list only.
    Emits that are not CAP, CAP LS emits before the last one of a list
    in several lines, and CAP emits with another subcommand than LS,
    ACK and NAK each leave the server as it is; after any run of them,
    the finished CAP LS does what [_cap_ls_done] does on the server as
    it was, and returns without waiting. *)
Theorem cap_ls_waits_for_last (line : Line) (emits : list Emit)
    (last : Emit) (s : Server) :
  Forall ignored emits →
  ircstates.command last = Some "CAP" →
  ircstates.subcommand last = Some "LS" →
  ircstates.finished last = true →
  (∀ emit, emit ∈ emits → _on_read_emit line emit s = Return tt s)
  ∧ ∃ s', for_each (emits ++ [last]) (_on_read_emit line) s = Return tt s'
      ∧ _cap_ls_done s = Return tt s'
      ∧ _cap_queue s' = ∅.
Proof.
  intros Hign Hcmd Hsub Hfin. split.
  { intros emit Hin. apply _on_read_emit_ignored.
    by apply (proj1 (Forall_forall _ _) Hign). }
  destruct (_cap_ls_done_run s) as (s' & Hrun & _ & _ & _ & Hq & _).
  exists s'. split_and!; [|done..].
  induction Hign as [|emit emits Hemit _ IH]; simpl.
  - coro_head. unfold _on_read_emit. rewrite decide_True by done.
    rewrite Hfin, bool_decide_eq_true_2 by done. cbn [andb].
    by rewrite Hrun.
  - coro_head. by rewrite (_on_read_emit_ignored line emit s Hemit).
Qed.
End emit_dispatch.

(** ** Further properties: concrete cases *)

Section more_cases.
Local Existing Instances spec_match spec_ircv3 spec_interface.

Lemma queued_server_heap : heap_ordered priority (_write_queue queued_server).
Proof.
  intros [|[|[|j]]] x y Hj Hx Hy; [lia|..|discriminate Hy];
    injection Hx as <-; injection Hy as <-; simpl; lia.
Defined.

Lemma server_waiting_pong_wf : server_wf server_waiting_pong.
Proof. apply (bool_decide_unpack _). vm_compute. exact I. Defined.

Lemma server_plain_waiting_pong_wf : server_wf server_plain_waiting_pong.
Proof. apply (bool_decide_unpack _). vm_compute. exact I. Defined.

Lemma pong_wait_ignores (line : Line) (s : Server) m f :
  irctokens.command line ≠ "PONG" →
  (m, f) ∈ _wait_for (register (Response "PONG" [ParamAny] []) s) →
  _wait_for s = [] →
  match_ m line = false.
Proof.
  intros Hcmd Hin Hw. unfold register in Hin. simpl in Hin.
  rewrite Hw in Hin. apply list_elem_of_singleton in Hin.
  injection Hin as -> _. unfold match_, spec_match.
  by rewrite (bool_decide_eq_false_2 _ Hcmd).
Defined.

Lemma server_scram_selected : selected server_scram "SCRAM-SHA-256".
Proof. vm_compute. reflexivity. Defined.

Lemma server_plain_waiting_pong_selected :
  selected server_plain_waiting_pong "PLAIN".
Proof. vm_compute. reflexivity. Defined.

Lemma server_offers_a_b_advertised :
  advertised server_offers_a_b = ["a"; "b"].
Proof. vm_compute. reflexivity. Defined.

Lemma small_burst_keeps_order_witness :
  _write_queue fresh_server = [] ∧ 1 ≤ length three_lines ≤ 3
  ∧ ∃ s1 s2,
      enqueue_all ((λ l, (l, SendPriority_DEFAULT)) <$> three_lines)
        fresh_server = Return tt s1
      ∧ _write_lines s1 = Some (three_lines, s2)
      ∧ _write_queue s2 = []
      ∧ _writer s2 = _writer fresh_server ++ three_lines.
Proof.
  split; [reflexivity|]. split; [simpl; lia|].
  apply (small_burst_keeps_order three_lines SendPriority_DEFAULT fresh_server);
    [reflexivity|simpl; lia].
Defined.

(** Three lines at one priority leave as they came; the fourth of
    [four_calls] is what breaks the order. *)
Example three_lines_in_order :
  (λ r, fst <$> _write_lines r.2)
    <$> returned (enqueue_all ((λ l, (l, SendPriority_DEFAULT)) <$> three_lines)
                    fresh_server)
  = Some (Some (privmsg <$> ["1"; "2"; "3"])).
Proof. vm_compute. reflexivity. Qed.

Lemma connect_writes_handshake_witness :
  _write_queue fresh_server = []
  ∧ ∃ s1 s2,
      connect params_empty_username fresh_server = Return tt s1
      ∧ params s1 = params_empty_username
      ∧ _write_lines s1 = Some (handshake params_empty_username, s2)
      ∧ _write_queue s2 = []
      ∧ _writer s2 = _writer fresh_server ++ handshake params_empty_username.
Proof.
  split; [reflexivity|].
  apply (connect_writes_handshake params_empty_username fresh_server).
  reflexivity.
Defined.

(** The handshake of the nickname robot, no user or real name given. *)
Example handshake_robot :
  handshake (sample_params None)
  = [build "CAP" ["LS"]; build "NICK" ["robot"];
     build "USER" ["robot"; "0"; "*"; "robot"]].
Proof. reflexivity. Qed.

(** An empty user name is replaced by the nickname as a missing one is;
    the real name that is given is sent. *)
Example connect_empty_username :
  (λ r, fst <$> _write_lines r.2)
    <$> returned (connect params_empty_username fresh_server)
  = Some (Some [build "CAP" ["LS"]; build "NICK" ["robot"];
                build "USER" ["robot"; "0"; "*"; "IRC robot"]]).
Proof. vm_compute. reflexivity. Qed.

Lemma send_keeps_heap_witness :
  heap_ordered priority (_write_queue queued_server)
  ∧ ∃ s', send line_ping 5 queued_server = Return tt s'
      ∧ heap_ordered priority (_write_queue s')
      ∧ _write_queue s' ≡ₚ mkPriorityLine 5 line_ping :: _write_queue queued_server
      ∧ (∃ head, _write_queue s' !! 0 = Some head
           ∧ ∀ y, y ∈ _write_queue s' → (priority head ≤ priority y)%Z)
      ∧ _wait_for s' = _wait_for queued_server
      ∧ futures s' = futures queued_server
      ∧ _requested_caps s' = _requested_caps queued_server
      ∧ _writer s' = _writer queued_server.
Proof.
  split; [exact queued_server_heap|].
  apply (send_keeps_heap line_ping 5 queued_server). exact queued_server_heap.
Defined.

Lemma write_lines_takes_lowest_witness :
  heap_ordered priority (_write_queue queued_server)
  ∧ (_write_lines queued_server = None ↔ _write_queue queued_server = [])
  ∧ (_write_queue queued_server ≠ [] →
     ∃ popped s',
       _write_lines queued_server = Some (line <$> popped, s')
       ∧ popped ≠ []
       ∧ length popped = length (_write_queue queued_server) `min` 5
       ∧ _write_queue queued_server ≡ₚ popped ++ _write_queue s'
       ∧ heap_ordered priority (_write_queue s')
       ∧ Sorted Z.le (priority <$> popped)
       ∧ (∀ x y, x ∈ popped → y ∈ _write_queue s' →
            (priority x ≤ priority y)%Z)
       ∧ _writer s' = _writer queued_server ++ (line <$> popped)).
Proof.
  split; [exact queued_server_heap|].
  apply (write_lines_takes_lowest queued_server). exact queued_server_heap.
Defined.

(** On the empty queue of a new server the cycle waits. *)
Example fresh_server_waits : _write_lines fresh_server = None.
Proof. reflexivity. Qed.

(** The three queued lines leave in one cycle, the most urgent first. *)
Example queued_server_cycle :
  fst <$> _write_lines queued_server
  = Some [build "PONG" ["x"]; privmsg "mid"; privmsg "low"].
Proof. vm_compute. reflexivity. Qed.

Lemma on_read_line_answers_ping_witness :
  server_wf two_waits
  ∧ ∃ s', _on_read_line line_ping two_waits = Return tt s'
      ∧ (irctokens.command line_ping = "PING" →
           _write_queue s'
           = heapq.heappush PriorityLine_lt (_write_queue two_waits)
               (PONG line_ping))
      ∧ (irctokens.command line_ping ≠ "PING" →
           _write_queue s' = _write_queue two_waits)
      ∧ _requested_caps s' = _requested_caps two_waits
      ∧ _writer s' = _writer two_waits.
Proof.
  split; [exact two_waits_wf|].
  apply (on_read_line_answers_ping line_ping two_waits). exact two_waits_wf.
Defined.

Lemma wait_for_then_matching_line_witness :
  server_wf server_waiting_pong
  ∧ (∀ m f, (m, f) ∈ _wait_for server_waiting_pong →
       match_ m line_903 = false)
  ∧ match_ (Numerics ["903"; "904"]) line_903 = true
  ∧ ∃ future s1 s2,
      wait_for (Numerics ["903"; "904"]) server_waiting_pong
      = Return future s1
      ∧ futures server_waiting_pong !! future = None
      ∧ futures s1 !! future = Some Pending
      ∧ _on_read_line line_903 s1 = Return tt s2
      ∧ futures s2 !! future = Some (Result line_903)
      ∧ _wait_for s2 = _wait_for server_waiting_pong
      ∧ server_wf s2.
Proof.
  assert (Hnone : ∀ m f, (m, f) ∈ _wait_for server_waiting_pong →
                    match_ m line_903 = false).
  { intros m f Hin.
    by apply (pong_wait_ignores line_903 fresh_server m f). }
  split; [exact server_waiting_pong_wf|]. split; [exact Hnone|].
  split; [reflexivity|].
  apply (wait_for_then_matching_line (Numerics ["903"; "904"]) line_903
           server_waiting_pong);
    [exact server_waiting_pong_wf|exact Hnone|reflexivity].
Defined.

Lemma sasl_userpass_scram_fails_witness :
  selected server_scram "SCRAM-SHA-256" ∧ "SCRAM-SHA-256" ≠ "PLAIN"
  ∧ ∃ k, sasl_userpass "alice" "secret" server_scram
         = Await (authenticating "SCRAM-SHA-256" AUTHENTICATE_reply server_scram)
             (length (futures server_scram)) k
      ∧ (∀ l s2, irctokens.command l = "AUTHENTICATE" →
           irctokens.params l !! 0 = Some "+" →
           k l s2 = Return FAILURE s2)
      ∧ (∀ l s2 v m,
           irctokens.command l = "908" → irctokens.params l !! 1 = Some v →
           first_common (Py.split "," v) m → m ≠ "PLAIN" →
           ∃ k', k l s2 = Await
                   (authenticating m (Response "AUTHENTICATE" [ParamAny] []) s2)
                   (length (futures s2)) k'
             ∧ ∀ l' s3, irctokens.command l' = "AUTHENTICATE" →
                 irctokens.params l' !! 0 = Some "+" →
                 k' l' s3 = Return FAILURE s3).
Proof.
  split; [exact server_scram_selected|]. split; [discriminate|].
  apply (sasl_userpass_scram_fails "alice" "secret" "SCRAM-SHA-256"
           server_scram); [exact server_scram_selected|discriminate].
Defined.

Lemma sasl_userpass_failure_witness :
  selected server_plain "PLAIN"
  ∧ ∃ k, sasl_userpass "alice" "secret" server_plain
         = Await (authenticating "PLAIN" AUTHENTICATE_reply server_plain)
             (length (futures server_plain)) k
      ∧ (∀ l s2, irctokens.command l ≠ "907" → irctokens.command l ≠ "908" →
           irctokens.command l ≠ "AUTHENTICATE" →
           k l s2 = Return FAILURE s2)
      ∧ (∀ l s2 p0, irctokens.command l = "AUTHENTICATE" →
           irctokens.params l !! 0 = Some p0 → p0 ≠ "+" →
           k l s2 = Return FAILURE s2)
      ∧ ("PLAIN" = "PLAIN" → ∀ l s2,
           irctokens.command l = "AUTHENTICATE" →
           irctokens.params l !! 0 = Some "+" →
           ∃ k2, k l s2 = Await
                   (authenticating (b64 (plain_payload "alice" "secret"))
                      (Numerics ["903"; "904"]) s2)
                   (length (futures s2)) k2
             ∧ ∀ l2 s4, irctokens.command l2 ≠ "903" →
                 k2 l2 s4 = Return FAILURE s4).
Proof.
  split; [exact server_plain_selected|].
  apply (sasl_userpass_failure "alice" "secret" "PLAIN" server_plain).
  exact server_plain_selected.
Defined.

Lemma sasl_userpass_missing_key_witness :
  available_caps fresh_server !! "sasl" = None
  ∧ sasl_userpass "alice" "secret" fresh_server
    = Raise (KeyError "sasl") fresh_server.
Proof.
  split; [reflexivity|].
  apply (sasl_userpass_missing_key "alice" "secret" fresh_server).
  reflexivity.
Defined.

Lemma sasl_userpass_index_errors_witness :
  selected server_plain "PLAIN"
  ∧ ∃ k, sasl_userpass "alice" "secret" server_plain
         = Await (authenticating "PLAIN" AUTHENTICATE_reply server_plain)
             (length (futures server_plain)) k
      ∧ (∀ l s2, irctokens.command l = "908" →
           irctokens.params l !! 1 = None → k l s2 = Raise IndexError s2)
      ∧ (∀ l s2, irctokens.command l = "AUTHENTICATE" →
           irctokens.params l = [] → k l s2 = Raise IndexError s2).
Proof.
  split; [exact server_plain_selected|].
  apply (sasl_userpass_index_errors "alice" "secret" "PLAIN" server_plain).
  exact server_plain_selected.
Defined.

Lemma common_ignores_order_witness :
  (∀ m, m ∈ ["PLAIN"; "SCRAM-SHA-1"] ↔ m ∈ ["SCRAM-SHA-1"; "PLAIN"; "PLAIN"])
  ∧ match _common ["PLAIN"; "SCRAM-SHA-1"] fresh_server,
          _common ["SCRAM-SHA-1"; "PLAIN"; "PLAIN"] fresh_server with
    | Return m1 s1, Return m2 s2 =>
        m1 = m2 ∧ s1 = fresh_server ∧ s2 = fresh_server
        ∧ m1 ∈ SASL_USERPASS_MECHANISMS
        ∧ m1 ∈ ["PLAIN"; "SCRAM-SHA-1"]
        ∧ m1 ∈ ["SCRAM-SHA-1"; "PLAIN"; "PLAIN"]
    | Raise e1 s1, Raise e2 s2 =>
        e1 = SASLUnkownMechanismError ["PLAIN"; "SCRAM-SHA-1"]
        ∧ e2 = SASLUnkownMechanismError ["SCRAM-SHA-1"; "PLAIN"; "PLAIN"]
        ∧ s1 = fresh_server ∧ s2 = fresh_server
    | _, _ => False
    end.
Proof.
  assert (Hsame : ∀ m : string,
            m ∈ ["PLAIN"; "SCRAM-SHA-1"]
            ↔ m ∈ ["SCRAM-SHA-1"; "PLAIN"; "PLAIN"]).
  { intros m. rewrite !elem_of_cons, !elem_of_nil. tauto. }
  split; [exact Hsame|].
  apply (common_ignores_order ["PLAIN"; "SCRAM-SHA-1"]
           ["SCRAM-SHA-1"; "PLAIN"; "PLAIN"] fresh_server).
  exact Hsame.
Defined.

(** Both orders give SCRAM-SHA-1, which comes first in our list. *)
Example common_of_both_orders :
  _common ["PLAIN"; "SCRAM-SHA-1"] fresh_server
  = Return "SCRAM-SHA-1" fresh_server
  ∧ _common ["SCRAM-SHA-1"; "PLAIN"; "PLAIN"] fresh_server
    = Return "SCRAM-SHA-1" fresh_server.
Proof. split; vm_compute; reflexivity. Qed.

Lemma server_unknown_mechanism_no_attempt :
  ConnectionParams.sasl (params server_unknown_mechanism) = None
  ∨ cap_agreed CAP_SASL server_unknown_mechanism = false
  ∨ (∃ cfg, ConnectionParams.sasl (params server_unknown_mechanism) = Some cfg
       ∧ SASLParams.mechanism cfg ≠ "USERPASS"
       ∧ SASLParams.mechanism cfg ≠ "EXTERNAL").
Proof.
  right. right. eexists. split; [reflexivity|]. split; discriminate.
Defined.

Lemma cap_ack_without_attempt_witness :
  (ConnectionParams.sasl (params server_unknown_mechanism) = None
   ∨ cap_agreed CAP_SASL server_unknown_mechanism = false
   ∨ (∃ cfg, ConnectionParams.sasl (params server_unknown_mechanism) = Some cfg
        ∧ SASLParams.mechanism cfg ≠ "USERPASS"
        ∧ SASLParams.mechanism cfg ≠ "EXTERNAL"))
  ∧ ∃ s', _cap_ack (ACK ["sasl"]) server_unknown_mechanism = Return tt s'
      ∧ _cap_ack_tokens (ACK ["sasl"]) server_unknown_mechanism = Return tt s'
      ∧ cap_frame server_unknown_mechanism s'.
Proof.
  split; [exact server_unknown_mechanism_no_attempt|].
  apply (cap_ack_without_attempt (ACK ["sasl"]) server_unknown_mechanism).
  exact server_unknown_mechanism_no_attempt.
Defined.

(** SASL agreed with a mechanism that [_cap_ack] does not know: no
    AUTHENTICATE, the negotiation just ends. *)
Example unknown_mechanism_ends :
  (λ r, (_requested_caps r.2, queued r.2))
    <$> returned (_cap_ack (ACK ["sasl"]) server_unknown_mechanism)
  = Some ([], [build "CAP" ["END"]]).
Proof. vm_compute. reflexivity. Qed.

Lemma cap_ack_removes_occurrences_witness :
  no_sasl_handoff (server_requested ["a"; "b"; "a"])
  ∧ ∃ s', _cap_ack (ACK ["a"; "c"]) (server_requested ["a"; "b"; "a"])
          = Return tt s'
      ∧ (∀ x, occurrences x (_requested_caps s')
              = occurrences x (_requested_caps (server_requested ["a"; "b"; "a"]))
                - occurrences x (tokens_of (ACK ["a"; "c"])))
      ∧ _requested_caps s'
        `sublist_of` _requested_caps (server_requested ["a"; "b"; "a"])
      ∧ ((∀ t, t ∈ tokens_of (ACK ["a"; "c"]) →
            t ∉ _requested_caps (server_requested ["a"; "b"; "a"])) →
           _requested_caps s'
           = _requested_caps (server_requested ["a"; "b"; "a"]))
      ∧ ((∀ x, occurrences x (_requested_caps (server_requested ["a"; "b"; "a"]))
               ≤ occurrences x (tokens_of (ACK ["a"; "c"]))) →
           _write_queue s'
           = heapq.heappush PriorityLine_lt
               (_write_queue (server_requested ["a"; "b"; "a"])) CAP_END)
      ∧ (¬ (∀ x, occurrences x (_requested_caps (server_requested ["a"; "b"; "a"]))
                 ≤ occurrences x (tokens_of (ACK ["a"; "c"]))) →
           _write_queue s'
           = _write_queue (server_requested ["a"; "b"; "a"])).
Proof.
  split; [apply server_requested_no_handoff|].
  apply (cap_ack_removes_occurrences (ACK ["a"; "c"])
           (server_requested ["a"; "b"; "a"])).
  apply server_requested_no_handoff.
Defined.

(** A capability requested twice and acknowledged once stays requested
    once, and the negotiation does not end. *)
Example doubled_request_stays :
  (λ r, (_requested_caps r.2, queued r.2))
    <$> returned (_cap_ack (ACK ["a"; "c"]) (server_requested ["a"; "b"; "a"]))
  = Some (["b"; "a"], []).
Proof. vm_compute. reflexivity. Qed.

Lemma queued_capability_is_requested_witness :
  available cap_a (offered server_offers_a) = Some "a"
  ∧ "a" ≠ ""
  ∧ ∃ s1 s2,
      queue_capability cap_a server_offers_a = Return tt s1
      ∧ _cap_ls_done s1 = Return tt s2
      ∧ "a" ∈ _requested_caps s2
      ∧ _write_queue s2
        = heapq.heappush PriorityLine_lt (_write_queue server_offers_a)
            (CAP_REQ (_requested_caps s2))
      ∧ _cap_queue s2 = ∅
      ∧ ∀ t', t' ∈ _requested_caps s2 ↔
          t' ≠ "" ∧ ∃ c,
            (c ∈ CAPS ∨ c = cap_a ∨ c ∈ _cap_queue server_offers_a
             ∨ (c = CAP_SASL
                ∧ ConnectionParams.sasl (params server_offers_a) ≠ None))
            ∧ available c (offered server_offers_a) = Some t'.
Proof.
  assert (Hav : available cap_a (offered server_offers_a) = Some "a")
    by (vm_compute; reflexivity).
  split; [exact Hav|]. split; [discriminate|].
  apply (queued_capability_is_requested cap_a "a" server_offers_a);
    [exact Hav|discriminate].
Defined.

(** Queued and offered: [a] is what CAP REQ asks for. *)
Example queued_a_requested :
  ∃ s1 s2,
    queue_capability cap_a server_offers_a = Return tt s1
    ∧ _cap_ls_done s1 = Return tt s2
    ∧ _requested_caps s2 = ["a"]
    ∧ queued s2 = [build "CAP" ["REQ"; "a"]].
Proof.
  eexists _, _. split_and!; [vm_compute; reflexivity..].
Qed.

Lemma cap_negotiation_round_trip_witness :
  ConnectionParams.sasl (params server_offers_a_b) = None
  ∧ _write_queue server_offers_a_b = []
  ∧ advertised server_offers_a_b ≠ []
  ∧ ircstates.command LS_done = Some "CAP"
  ∧ ircstates.subcommand LS_done = Some "LS"
  ∧ ircstates.finished LS_done = true
  ∧ ircstates.command (ACK ["b"; "a"]) = Some "CAP"
  ∧ (ircstates.subcommand (ACK ["b"; "a"]) = Some "ACK"
     ∨ ircstates.subcommand (ACK ["b"; "a"]) = Some "NAK")
  ∧ tokens_of (ACK ["b"; "a"]) ≡ₚ advertised server_offers_a_b
  ∧ ∃ s1 s2 s3,
      _on_read_emit line_cap LS_done server_offers_a_b = Return tt s1
      ∧ _requested_caps s1 = advertised server_offers_a_b
      ∧ _on_read_emit line_cap (ACK ["b"; "a"]) s1 = Return tt s2
      ∧ _requested_caps s2 = []
      ∧ _write_lines s2
        = Some ([build "CAP" ["REQ"; Py.join " " (advertised server_offers_a_b)];
                 build "CAP" ["END"]], s3)
      ∧ _write_queue s3 = [].
Proof.
  assert (Hne : advertised server_offers_a_b ≠ []).
  { rewrite server_offers_a_b_advertised. discriminate. }
  assert (Hperm : tokens_of (ACK ["b"; "a"]) ≡ₚ advertised server_offers_a_b).
  { rewrite server_offers_a_b_advertised. apply perm_swap. }
  split_and!; [reflexivity|reflexivity|exact Hne|reflexivity|reflexivity
              |reflexivity|reflexivity|by left|exact Hperm|].
  apply (cap_negotiation_round_trip line_cap LS_done (ACK ["b"; "a"])
           server_offers_a_b);
    [reflexivity|reflexivity|exact Hne|reflexivity|reflexivity|reflexivity
    |reflexivity|by left|exact Hperm].
Defined.

(** CAP LS lists [a] and [b], the server acknowledges [b a]: CAP REQ
    a b and CAP END are what the next cycle writes. *)
Example negotiation_a_b_written :
  ∃ s1 s2,
    _on_read_emit line_cap LS_done server_offers_a_b = Return tt s1
    ∧ _on_read_emit line_cap (ACK ["b"; "a"]) s1 = Return tt s2
    ∧ fst <$> _write_lines s2
      = Some [build "CAP" ["REQ"; "a b"]; build "CAP" ["END"]].
Proof.
  eexists _, _. split_and!; [vm_compute; reflexivity..].
Qed.

Lemma sasl_reply_delivered_witness :
  server_wf server_plain_waiting_pong
  ∧ (∀ m f, (m, f) ∈ _wait_for server_plain_waiting_pong →
       match_ m line_907 = false)
  ∧ match_ AUTHENTICATE_reply line_907 = true
  ∧ (∃ k s2,
       sasl_external server_plain_waiting_pong
       = Await (authenticating "EXTERNAL" AUTHENTICATE_reply
                  server_plain_waiting_pong)
           (length (futures server_plain_waiting_pong)) k
       ∧ _on_read_line line_907
           (authenticating "EXTERNAL" AUTHENTICATE_reply
              server_plain_waiting_pong)
         = Return tt s2
       ∧ futures s2 !! length (futures server_plain_waiting_pong)
         = Some (Result line_907)
       ∧ _wait_for s2 = _wait_for server_plain_waiting_pong
       ∧ (irctokens.command line_907 = "907" →
            k line_907 s2 = Return ALREADY s2))
  ∧ (∀ username password mech, selected server_plain_waiting_pong mech →
     ∃ k s2,
       sasl_userpass username password server_plain_waiting_pong
       = Await (authenticating mech AUTHENTICATE_reply
                  server_plain_waiting_pong)
           (length (futures server_plain_waiting_pong)) k
       ∧ _on_read_line line_907
           (authenticating mech AUTHENTICATE_reply server_plain_waiting_pong)
         = Return tt s2
       ∧ futures s2 !! length (futures server_plain_waiting_pong)
         = Some (Result line_907)
       ∧ _wait_for s2 = _wait_for server_plain_waiting_pong
       ∧ (irctokens.command line_907 = "907" →
            k line_907 s2 = Return ALREADY s2)).
Proof.
  assert (Hnone : ∀ m f, (m, f) ∈ _wait_for server_plain_waiting_pong →
                    match_ m line_907 = false).
  { intros m f Hin.
    by apply (pong_wait_ignores line_907 server_plain m f). }
  split; [exact server_plain_waiting_pong_wf|]. split; [exact Hnone|].
  split; [reflexivity|].
  apply (sasl_reply_delivered line_907 server_plain_waiting_pong);
    [exact server_plain_waiting_pong_wf|exact Hnone|reflexivity].
Defined.

(** With a wait for PONG registered before, the 907 goes to the SASL
    attempt and the wait for PONG stays. *)
Example reply_907_reaches_attempt :
  (λ r, (futures r.2, _wait_for r.2))
    <$> returned (_on_read_line line_907
                    (authenticating "PLAIN" AUTHENTICATE_reply
                       server_plain_waiting_pong))
  = Some ([Pending; Result line_907],
          [(Response "PONG" [ParamAny] [], 0)]).
Proof. vm_compute. reflexivity. Qed.
Lemma cap_ack_after_attempt_witness :
  ConnectionParams.sasl (params server_external) = Some external_cfg
  ∧ cap_agreed CAP_SASL server_external = true
  ∧ (SASLParams.mechanism external_cfg = "EXTERNAL" →
       ∃ k, _cap_ack (ACK ["sasl"]) server_external
            = Await (authenticating "EXTERNAL" AUTHENTICATE_reply
                       server_external)
                (length (futures server_external)) k
         ∧ (∀ l, irctokens.command l ≠ "907" → irctokens.command l ≠ "908" →
              irctokens.command l ≠ "AUTHENTICATE" →
              then_tokens (ACK ["sasl"]) l k)
         ∧ (∀ l s2 v, irctokens.command l = "908" →
              irctokens.params l !! 1 = Some v →
              k l s2 = Raise (SASLUnkownMechanismError (Py.split "," v)) s2))
  ∧ (SASLParams.mechanism external_cfg = "USERPASS" →
       (available_caps server_external !! "sasl" = None →
          _cap_ack (ACK ["sasl"]) server_external
          = Raise (KeyError "sasl") server_external)
       ∧ (∀ v, available_caps server_external !! "sasl" = Some (Some v) →
            (∀ m, m ∈ SASL_USERPASS_MECHANISMS → m ∉ Py.split "," v) →
            _cap_ack (ACK ["sasl"]) server_external
            = Raise (SASLUnkownMechanismError (Py.split "," v))
                server_external)
       ∧ (∀ mech, selected server_external mech →
            ∃ k, _cap_ack (ACK ["sasl"]) server_external
                 = Await (authenticating mech AUTHENTICATE_reply
                            server_external)
                     (length (futures server_external)) k
              ∧ ∀ l, irctokens.command l ≠ "907" →
                  irctokens.command l ≠ "908" →
                  irctokens.command l ≠ "AUTHENTICATE" →
                  then_tokens (ACK ["sasl"]) l k)).
Proof.
  split; [reflexivity|]. split; [reflexivity|].
  apply (cap_ack_after_attempt (ACK ["sasl"]) server_external external_cfg);
    reflexivity.
Defined.

(** USERPASS against a server that lists OAUTHBEARER only: the ACK of
    sasl raises, and sasl stays requested with nothing enqueued. *)
Example cap_ack_oauth_raises :
  _cap_ack (ACK ["sasl"]) (set_requested_caps ["sasl"] server_oauth)
  = Raise (SASLUnkownMechanismError ["OAUTHBEARER"])
      (set_requested_caps ["sasl"] server_oauth).
Proof. vm_compute. reflexivity. Qed.

Lemma LS_more_ignored : Forall ignored [JOIN_self; LS_more; CAP_NEW].
Proof.
  repeat apply Forall_cons_2; [| | |apply Forall_nil_2].
  - left. discriminate.
  - right. left. by split.
  - right. right. rewrite !elem_of_cons, elem_of_nil.
    intros [Heq|[Heq|[Heq|[]]]]; discriminate Heq.
Defined.

Lemma cap_ls_waits_for_last_witness :
  Forall ignored [JOIN_self; LS_more; CAP_NEW]
  ∧ ircstates.command LS_done = Some "CAP"
  ∧ ircstates.subcommand LS_done = Some "LS"
  ∧ ircstates.finished LS_done = true
  ∧ (∀ emit, emit ∈ [JOIN_self; LS_more; CAP_NEW] →
       _on_read_emit line_cap emit server_offers_a_b
       = Return tt server_offers_a_b)
  ∧ ∃ s', for_each ([JOIN_self; LS_more; CAP_NEW] ++ [LS_done])
            (_on_read_emit line_cap) server_offers_a_b = Return tt s'
      ∧ _cap_ls_done server_offers_a_b = Return tt s'
      ∧ _cap_queue s' = ∅.
Proof.
  split; [exact LS_more_ignored|].
  do 3 (split; [reflexivity|]).
  apply (cap_ls_waits_for_last line_cap [JOIN_self; LS_more; CAP_NEW]
           LS_done server_offers_a_b);
    [exact LS_more_ignored|reflexivity..].
Defined.
End more_cases.
